(** * OneMap building download: a shallow embedding of
    [scripts/onemap_building_download.py] and the properties of its
    acquisition engine.

    Python integers are [Z], strings are [string], the decoded JSON payload is
    a record of optional fields, a raw result item is a finite map from field
    names to strings, and an output row is an association list in insertion
    order (the order decides the columns of the table).  Code that talks to the
    network or to the file system runs in a state-and-exception monad over an
    explicit [world]. *)

From Stdlib Require Import ZArith Lia Ascii.
From stdpp Require Import base tactics option list numbers strings pretty gmap.

Local Open Scope Z_scope.

(** ** Decimal formatting: [f"{i:06d}"] and [f"{n}"] *)

Module Fmt.

(** [str(i)] for a Python int is stdpp's [pretty] on [Z]. *)
Definition str (i : Z) : string := pretty i.

Fixpoint zeros (n : nat) : string :=
  match n with
  | O => ""
  | S n' => String "0"%char (zeros n')
  end.

(** The format spec [06d]: sign first, then zero fill up to width 6, then
    the digits; a number wider than 6 is printed in full. *)
Definition format_06d (i : Z) : string :=
  let sign := if i <? 0 then "-" else "" in
  let digits := str (Z.abs i) in
  sign +:+ zeros (6 - String.length sign - String.length digits) +:+ digits.

(** Reading a key back as a number, the way [int(key)] does on a string of
    decimal digits. *)
Definition digit_value (c : ascii) : Z := Z.of_N (N_of_ascii c) - 48.

Definition is_digit (c : ascii) : bool :=
  (48 <=? Z.of_N (N_of_ascii c)) && (Z.of_N (N_of_ascii c) <=? 57).

Fixpoint int_go (acc : Z) (s : string) : Z :=
  match s with
  | EmptyString => acc
  | String c s' => int_go (10 * acc + digit_value c) s'
  end.

Definition int (s : string) : Z := int_go 0 s.

Fixpoint all_digits (s : string) : bool :=
  match s with
  | EmptyString => true
  | String c s' => is_digit c && all_digits s'
  end.

End Fmt.

(** ** The key space *)

(** [range(lo, hi)] *)
Definition range (lo hi : Z) : list Z := seqZ lo (hi - lo).

(** [postal_codes = [f"{i:06d}" for i in range(10000, 830000)]] *)
Definition postal_codes : list string := Fmt.format_06d <$> range 10000 830000.

(** ** Exceptions, outcomes and the world *)

(** The two classes of exception the handlers tell apart:
    [asyncio.TimeoutError], and every other [Exception], of which only
    [str(e)] is ever used. *)
Inductive exn : Type :=
  | TimeoutError
  | Error (msg : string).

Inductive outcome (A : Type) : Type :=
  | Ok (a : A)
  | Raise (e : exn).
Arguments Ok {A} a.
Arguments Raise {A} e.

(** The decoded JSON object of one page.  A field the payload does not carry
    is [None]: [d.get(k, default)] then yields the default and [d[k]] raises
    [KeyError]. *)
Record SearchResponse : Type := {
  found : option Z;
  totalNumPages : option Z;
  results : option (list (gmap string string))
}.

(** What [session.get] hands to the body of [async with]: the status, and
    what [await response.json()] does when it is called. *)
Record response : Type := {
  status : Z;
  json : outcome SearchResponse
}.

(** [error_log.txt], by what [with open(..., 'a') as f: f.write(line)] does
    to it.  [Writable]: the file opens, the line reaches it, and it holds the
    chunks written so far.  [Unwritable]: [open] raises [OSError].
    [Unflushable]: the file opens and [f.write] fills the buffer, but the
    flush when the [with] block closes the file raises [OSError] (a full
    device), and the file keeps what it held. *)
Inductive file : Type :=
  | Writable (written : list string)
  | Unwritable (err : string)
  | Unflushable (written : list string) (err : string).

(** The world a task runs in: the GET requests issued so far (what an
    instrumented transport records) and the error log. *)
Record world : Type := {
  requests : list string;
  error_log : file
}.

Definition M (A : Type) : Type := world -> outcome A * world.

#[global] Instance M_ret : MRet M := fun A a w => (Ok a, w).

#[global] Instance M_bind : MBind M := fun A B f m w =>
  match m w with
  | (Ok a, w') => f a w'
  | (Raise e, w') => (Raise e, w')
  end.

Definition raise {A : Type} (e : exn) : M A := fun w => (Raise e, w).

(** [try: body  except ...: handler]; the handler receives the exception and
    re-raises what no [except] clause matches. *)
Definition try_except {A : Type} (body : M A) (handler : exn -> M A) : M A :=
  fun w =>
    match body w with
    | (Ok a, w') => (Ok a, w')
    | (Raise e, w') => handler e w'
    end.

Definition newline : string := String "010"%char EmptyString.

(** The line [f"Error with postal code {postal_code}: {error}\n"]. *)
Definition entry (postal_code error : string) : string :=
  "Error with postal code " +:+ postal_code +:+ ": " +:+ error +:+ newline.

(** A row of the table: the dict literal of [process_postal], keys in
    insertion order. *)
Definition row : Type := list (string * string).

(** [item.get(k, '')] on each raw field. *)
Definition record_of_item (item : gmap string string) : row :=
  [ ("blk_no", default "" (item !! "BLK_NO"));
    ("street", default "" (item !! "ROAD_NAME"));
    ("postal_code", default "" (item !! "POSTAL"));
    ("name", default "" (item !! "BUILDING"));
    ("lat", default "" (item !! "LATITUDE"));
    ("lon", default "" (item !! "LONGITUDE")) ].

Definition search_url (postal_code page : string) : string :=
  "https://www.onemap.gov.sg/api/common/elastic/search?searchVal="
    +:+ postal_code +:+ "&returnGeom=Y&getAddrDetails=Y&pageNum=" +:+ page.

(** The URL of [fetch_postal], with [pageNum=1] written in the literal. *)
Definition probe_url (postal_code : string) : string :=
  search_url postal_code "1".

(** The URL of the page loop, with [pageNum={page}]. *)
Definition page_url (postal_code : string) (page : Z) : string :=
  search_url postal_code (Fmt.str page).

(** What one iteration of the retry loop decides. *)
Inductive ctl : Type :=
  | Return (j : SearchResponse)
  | Break
  | Next.

(** ** The downloader *)

Section Downloader.

(** The remote end: the reply to a GET depends on the URL and on everything
    requested before.  [Raise] is [session.get] raising. *)
Variable transport : list string -> string -> outcome response.

(** [async with session.get(url, timeout=60) as response] *)
Definition session_get (url : string) : M response := fun w =>
  (transport (requests w) url,
   {| requests := requests w ++ [url]; error_log := error_log w |}).

(** [await response.json()] *)
Definition read_json (r : response) : M SearchResponse := fun w => (json r, w).

(** [log_error]: open for append, write one line, close; nothing is
    caught, whether [open] raises or the close does. *)
Definition log_error (postal_code error : string) : M unit := fun w =>
  match error_log w with
  | Writable written =>
      (Ok (),
       {| requests := requests w;
          error_log := Writable (written ++ [entry postal_code error]) |})
  | Unwritable err => (Raise (Error err), w)
  | Unflushable written err => (Raise (Error err), w)
  end.

(** The body of [for attempt in range(retries)]. *)
Definition fetch_attempt (postal_code : string) (retries attempt : Z) : M ctl :=
  try_except
    (response ← session_get (probe_url postal_code);
     if status response =? 200 then
       j ← read_json response; mret (Return j)
     else
       log_error postal_code ("HTTP " +:+ Fmt.str (status response));;
       mret Break)
    (fun e =>
       match e with
       | TimeoutError =>
           if attempt <? retries - 1 then mret Next
           else log_error postal_code "Timeout after retries";; mret Next
       | Error msg => log_error postal_code msg;; mret Break
       end).

Fixpoint fetch_postal_loop (postal_code : string) (retries : Z)
    (attempts : list Z) : M (option SearchResponse) :=
  match attempts with
  | [] => mret None
  | attempt :: rest =>
      c ← fetch_attempt postal_code retries attempt;
      match c with
      | Return j => mret (Some j)
      | Break => mret None
      | Next => fetch_postal_loop postal_code retries rest
      end
  end.

Definition fetch_postal (postal_code : string) (retries : Z)
    : M (option SearchResponse) :=
  fetch_postal_loop postal_code retries (range 0 retries).

(** The body of [for page in range(1, totalNumPages + 1)]: only
    [asyncio.TimeoutError] is caught. *)
Definition fetch_page (postal_code : string) (page : Z) (records : list row)
    : M (list row) :=
  try_except
    (response ← session_get (page_url postal_code page);
     if status response =? 200 then
       data ← read_json response;
       mret (records ++ (record_of_item <$> default [] (results data)))
     else mret records)
    (fun e =>
       match e with
       | TimeoutError =>
           log_error postal_code ("Page " +:+ Fmt.str page +:+ " timeout");;
           mret records
       | Error msg => raise (Error msg)
       end).

Fixpoint page_loop (postal_code : string) (pages : list Z)
    (records : list row) : M (list row) :=
  match pages with
  | [] => mret records
  | page :: rest =>
      records' ← fetch_page postal_code page records;
      page_loop postal_code rest records'
  end.

(** [process_postal]; [fetch_postal] is called with its default budget of
    3.  A payload with a positive [found] and no [totalNumPages] makes
    [result['totalNumPages']] raise [KeyError]. *)
Definition process_postal (postal_code : string) : M (list row) :=
  result ← fetch_postal postal_code 3;
  match result with
  | Some result =>
      if 0 <? default 0 (found result) then
        match totalNumPages result with
        | Some n => page_loop postal_code (range 1 (n + 1)) []
        | None => raise (Error "'totalNumPages'")
        end
      else mret []
  | None => mret []
  end.

End Downloader.

(** ** The table *)

(** As much of a pandas DataFrame as the downloader uses: the ordered column
    labels and the rows; a label missing from a row is a missing cell. *)
Record DataFrame : Type := {
  columns : list string;
  rows : list row
}.

(** Labels in order of first appearance. *)
Fixpoint add_columns (cols new : list string) : list string :=
  match new with
  | [] => cols
  | c :: new' =>
      add_columns (if bool_decide (c ∈ cols) then cols else cols ++ [c]) new'
  end.

(** [pd.DataFrame(batch)] for a list of dicts. *)
Definition DataFrame_of (batch : list row) : DataFrame :=
  {| columns := add_columns [] (concat ((fun r : row => r.*1) <$> batch));
     rows := batch |}.

(** [pd.concat([a, b], ignore_index=True)] *)
Definition concat_df (a b : DataFrame) : DataFrame :=
  {| columns := add_columns (columns a) (columns b);
     rows := rows a ++ rows b |}.

(** [self.df] as [__init__] leaves it. *)
Definition init_df : DataFrame :=
  {| columns := ["blk_no"; "street"; "postal_code"; "name"; "lat"; "lon"];
     rows := [] |}.

(** [for batch in completed: if batch: self.df = pd.concat(...)] *)
Definition flush (completed : list (list row)) (df : DataFrame) : DataFrame :=
  fold_left
    (fun df batch =>
       match batch with
       | [] => df
       | _ :: _ => concat_df df (DataFrame_of batch)
       end)
    completed df.

(** ** The scheduler *)

(** What the main coroutine does to the semaphore and to its tasks, in
    order.  [Gathered ks] is the call of [asyncio.gather] on the tasks: every coroutine of the
    list is wrapped in a task and scheduled before the caller is resumed, so
    the operations for all of [ks] are in progress together until the last of
    them completes. *)
Inductive event : Type :=
  | Acquire
  | Release
  | Created (postal_code : string)
  | Gathered (started : list string).

Record sched : Type := {
  sem_value : Z;
  events : list event
}.

Definition record_event (e : event) (s : sched) : sched :=
  {| sem_value := sem_value s; events := events s ++ [e] |}.

(** Entering and leaving [async with sem].  The value is positive whenever
    the main coroutine gets here (lemma [download_loop_sem]), so the acquire
    returns at once. *)
Definition sem_acquire (s : sched) : sched :=
  {| sem_value := sem_value s - 1; events := events s ++ [Acquire] |}.

Definition sem_release (s : sched) : sched :=
  {| sem_value := sem_value s + 1; events := events s ++ [Release] |}.

(** A coroutine object: calling an [async def] runs none of its body. *)
Record coroutine : Type := {
  coro_arg : string;
  coro_body : M (list row)
}.

(** Awaiting the gathered tasks, as one linearisation of the event loop:
    each task runs to its end before the next, and the first exception in
    task order is delivered to the caller with the world as it then is.  The
    results of a run that completes, the schedule of the main coroutine and
    the fact that a run aborts do not depend on the choice; which exception
    an aborted run delivers when several tasks raise, and what the other
    tasks of the batch have requested or logged by then, do. *)
Fixpoint run_tasks (tasks : list coroutine) : M (list (list row)) :=
  match tasks with
  | [] => mret []
  | t :: rest =>
      r ← coro_body t; rs ← run_tasks rest; mret (r :: rs)
  end.

Definition gather (tasks : list coroutine) (s : sched) (w : world)
    : outcome (list (list row)) * sched * world :=
  let s := record_event (Gathered (coro_arg <$> tasks)) s in
  let '(r, w') := run_tasks tasks w in (r, s, w').

(** [enumerate(l)], counting from [i]. *)
Fixpoint enumerate_from {A : Type} (i : Z) (l : list A) : list (Z * A) :=
  match l with
  | [] => []
  | x :: l' => (i, x) :: enumerate_from (i + 1) l'
  end.

Section Scheduler.

Variable transport : list string -> string -> outcome response.

(** [self.process_postal(postal_code, session)], not yet awaited. *)
Definition process_postal_coro (postal_code : string) : coroutine :=
  {| coro_arg := postal_code;
     coro_body := process_postal transport postal_code |}.

(** The [for i, postal_code in enumerate(postal_codes)] loop, carrying
    [tasks] and [self.df]. *)
Fixpoint download_loop (items : list (Z * string)) (tasks : list coroutine)
    (df : DataFrame) (s : sched) (w : world)
    : outcome (list coroutine * DataFrame) * sched * world :=
  match items with
  | [] => (Ok (tasks, df), s, w)
  | (i, postal_code) :: rest =>
      let s := sem_acquire s in
      let tasks := tasks ++ [process_postal_coro postal_code] in
      let s := record_event (Created postal_code) s in
      let s := sem_release s in
      if (i mod 1000 =? 0) && (0 <? i) then
        match gather tasks s w with
        | (Ok completed, s, w) =>
            download_loop rest [] (flush completed df) s w
        | (Raise e, s, w) => (Raise e, s, w)
        end
      else download_loop rest tasks df s w
  end.

(** [if tasks:] with the final gather. *)
Definition final_gather (tasks : list coroutine) (df : DataFrame)
    (s : sched) (w : world) : outcome DataFrame * sched * world :=
  match tasks with
  | [] => (Ok df, s, w)
  | _ :: _ =>
      match gather tasks s w with
      | (Ok completed, s, w) => (Ok (flush completed df), s, w)
      | (Raise e, s, w) => (Raise e, s, w)
      end
  end.

(** The loop over the keys, then the final gather. *)
Definition download_keys (keys : list string) (df : DataFrame) (s : sched)
    (w : world) : outcome DataFrame * sched * world :=
  match download_loop (enumerate_from 0 keys) [] df s w with
  | (Ok (tasks, df), s, w) => final_gather tasks df s w
  | (Raise e, s, w) => (Raise e, s, w)
  end.

(** [download_data]: the key space, [sem = asyncio.Semaphore(20)], and the
    table of a fresh downloader. *)
Definition download_data (w : world)
    : outcome DataFrame * sched * world :=
  download_keys postal_codes init_df {| sem_value := 20; events := [] |} w.

End Scheduler.

(** ** Reading the schedule *)

(** Permits taken and not yet given back. *)
Fixpoint permits_held (evs : list event) : Z :=
  match evs with
  | [] => 0
  | Acquire :: evs' => permits_held evs' + 1
  | Release :: evs' => permits_held evs' - 1
  | _ :: evs' => permits_held evs'
  end.

(** The largest number of operations started together. *)
Fixpoint peak_in_progress (evs : list event) : Z :=
  match evs with
  | [] => 0
  | Gathered ks :: evs' => Z.max (Z.of_nat (length ks)) (peak_in_progress evs')
  | _ :: evs' => peak_in_progress evs'
  end.

(** The first gather of a schedule: what it starts, and how many permits are
    held at that moment. *)
Fixpoint first_gather (held : Z) (evs : list event) : option (list string * Z) :=
  match evs with
  | [] => None
  | Acquire :: evs' => first_gather (held + 1) evs'
  | Release :: evs' => first_gather (held - 1) evs'
  | Created _ :: evs' => first_gather held evs'
  | Gathered ks :: _ => Some (ks, held)
  end.

(** ** Vocabulary of the specification *)

(** The three outcomes of one request: success with a decoded payload, a
    timeout, or a failure with its reason (the status, or the text of the
    exception). *)
Inductive verdict : Type :=
  | Success (j : SearchResponse)
  | TimedOut
  | Failed (reason : string).

Definition classify (o : outcome response) : verdict :=
  match o with
  | Raise TimeoutError => TimedOut
  | Raise (Error msg) => Failed msg
  | Ok r =>
      if status r =? 200 then
        match json r with
        | Ok j => Success j
        | Raise TimeoutError => TimedOut
        | Raise (Error msg) => Failed msg
        end
      else Failed ("HTTP " +:+ Fmt.str (status r))
  end.

(** The world after one more GET. *)
Definition sent (url : string) (w : world) : world :=
  {| requests := requests w ++ [url]; error_log := error_log w |}.

(** The world after one more line in a writable error log. *)
Definition logged (line : string) (w : world) : world :=
  {| requests := requests w;
     error_log :=
       match error_log w with
       | Writable written => Writable (written ++ [line])
       | Unwritable err => Unwritable err
       | Unflushable written err => Unflushable written err
       end |}.

(** The error an attempt to write a line to the file ends with, if any. *)
Definition write_error (f : file) : option string :=
  match f with
  | Writable _ => None
  | Unwritable err => Some err
  | Unflushable _ err => Some err
  end.

(** What the main coroutine records while it only creates the coroutines of
    [keys]: for each key the semaphore is taken, the coroutine object is
    made, the semaphore is given back. *)
Definition admission_events (keys : list string) : list event :=
  keys ≫= (fun key => [Acquire; Created key; Release]).

(** The column labels as the specification names them. *)
Definition spec_columns : list string :=
  ["block_number"; "street"; "postal_code"; "name"; "latitude"; "longitude"].

(** ** Scenarios *)

(** A fresh run: nothing requested, an empty, writable error log. *)
Definition fresh_world : world :=
  {| requests := []; error_log := Writable [] |}.

(** The same, on a file system that refuses the error log. *)
Definition full_disk : world :=
  {| requests := [];
     error_log := Unwritable "[Errno 28] No space left on device" |}.

(** The same, on a device that takes the open and refuses the flush. *)
Definition full_device : world :=
  {| requests := [];
     error_log := Unflushable [] "[Errno 28] No space left on device" |}.

Definition fresh_sched : sched := {| sem_value := 20; events := [] |}.

(** A 200 reply carrying [found], [totalNumPages] and [results]. *)
Definition reply_found (f n : Z) (items : list (gmap string string))
    : outcome response :=
  Ok {| status := 200;
        json := Ok {| found := Some f; totalNumPages := Some n;
                      results := Some items |} |}.

Definition reply_status (code : Z) : outcome response :=
  Ok {| status := code;
        json := Ok {| found := None; totalNumPages := None; results := None |} |}.

Definition always_timeout : list string -> string -> outcome response :=
  fun _ _ => Raise TimeoutError.

Definition always_500 : list string -> string -> outcome response :=
  fun _ _ => reply_status 500.

Definition nothing_found : list string -> string -> outcome response :=
  fun _ _ => reply_found 0 0 [].

(** Two timeouts, then an answer. *)
Definition third_time_lucky : list string -> string -> outcome response :=
  fun h _ => if bool_decide (length h < 2)%nat then Raise TimeoutError
             else reply_found 0 0 [].

Definition block (blk : string) : gmap string string :=
  <["BLK_NO" := blk]> (<["POSTAL" := "118411"]> ∅).

(** Key 118411 has three pages; [second] is the reply to the request for
    page 2. *)
Definition three_pages (second : outcome response)
    : list string -> string -> outcome response :=
  fun _ u =>
    if bool_decide (u = page_url "118411" 2) then second
    else if bool_decide (u = page_url "118411" 3)
         then reply_found 3 3 [block "3"]
         else reply_found 3 3 [block "1"].

(** The first key has two pages, and the connection drops on the second. *)
Definition page_disconnects : list string -> string -> outcome response :=
  fun _ u =>
    if bool_decide (u = page_url "010000" 2)
    then Raise (Error "Server disconnected")
    else reply_found 2 2 [block "1"].

(** Key 118411 has one page with two items. *)
Definition two_blocks : list string -> string -> outcome response :=
  fun _ _ => reply_found 2 1 [block "1"; block "2"].

(** ** Further reading of the schedule *)

(** Every gather of a schedule, with the permits held when it starts. *)
Fixpoint gathers (held : Z) (evs : list event) : list (list string * Z) :=
  match evs with
  | [] => []
  | Acquire :: evs' => gathers (held + 1) evs'
  | Release :: evs' => gathers (held - 1) evs'
  | Created _ :: evs' => gathers held evs'
  | Gathered ks :: evs' => (ks, held) :: gathers held evs'
  end.

(** The keys whose coroutine was created, in order. *)
Fixpoint created_keys (evs : list event) : list string :=
  match evs with
  | [] => []
  | Created key :: evs' => key :: created_keys evs'
  | _ :: evs' => created_keys evs'
  end.

(** The keys whose coroutine was handed to a gather, in order. *)
Definition gathered_keys (evs : list event) : list string :=
  concat ((gathers 0 evs).*1).

(** The error log of [w'] is that of [w] with lines appended, each of them
    an entry for one of [keys]; a log that cannot be written stays as it
    is. *)
Definition appended_entries (keys : list string) (w w' : world) : Prop :=
  match error_log w with
  | Writable written =>
      exists lines,
        error_log w' = Writable (written ++ lines)
        /\ Forall (fun line => exists key reason,
                                key ∈ keys /\ line = entry key reason) lines
  | Unwritable err => error_log w' = Unwritable err
  | Unflushable written err => error_log w' = Unflushable written err
  end.

(** An item the transport served for [key]: it is in the [results] of the
    decoded payload of a 200 reply to a request for one of the key's
    pages. *)
Definition served (tr : list string -> string -> outcome response)
    (key : string) (item : gmap string string) : Prop :=
  exists (page : Z) (h : list string) (resp : response)
         (data : SearchResponse),
    tr h (page_url key page) = Ok resp
    /\ status resp = 200
    /\ json resp = Ok data
    /\ item ∈ default [] (results data).

(** The raw fields [process_postal] reads. *)
Definition raw_fields : list string :=
  ["BLK_NO"; "ROAD_NAME"; "POSTAL"; "BUILDING"; "LATITUDE"; "LONGITUDE"].

(** Every page of every key answers 200 with the one item [block b], [b] the
    number of the page taken from the end of the URL. *)
Definition one_block_per_page (page : Z) : SearchResponse :=
  {| found := Some 2; totalNumPages := Some 2;
     results := Some [block (Fmt.str page)] |}.

Definition two_pages : list string -> string -> outcome response :=
  fun _ u =>
    if bool_decide (u = page_url "118411" 2)
    then Ok {| status := 200; json := Ok (one_block_per_page 2) |}
    else Ok {| status := 200; json := Ok (one_block_per_page 1) |}.

(** ** File names *)

(** The format spec [0{width}d], as [format_06d] for any width. *)
Definition format_0d (width : nat) (i : Z) : string :=
  let sign := if i <? 0 then "-" else "" in
  let digits := Fmt.str (Z.abs i) in
  sign +:+ Fmt.zeros (width - String.length sign - String.length digits)
    +:+ digits.

(** [datetime.strftime('%d%m%Y')] on a date given as day, month and year:
    two digits, two digits, four digits (the year of a date of today has
    four). *)
Definition strftime_dmY (day month year : Z) : string :=
  format_0d 2 day +:+ format_0d 2 month +:+ format_0d 4 year.

Definition starts_with (c : ascii) (s : string) : bool :=
  match s with
  | EmptyString => false
  | String c' _ => bool_decide (c' = c)
  end.

Fixpoint ends_with (c : ascii) (s : string) : bool :=
  match s with
  | EmptyString => false
  | String c' EmptyString => bool_decide (c' = c)
  | String _ s' => ends_with c s'
  end.

(** [os.path.join(a, b)] of [posixpath]: an absolute [b] replaces [a]; a
    separator is added unless [a] is empty or ends with one. *)
Definition path_join (a b : string) : string :=
  if starts_with "/" b then b
  else if bool_decide (a = "") || ends_with "/" a then a +:+ b
  else a +:+ "/" +:+ b.

(** [self.output_file] as [OnemapDownloader.__init__] sets it; [today] is
    [datetime.now()], and an [output_file] that is [None] or empty is
    falsy. *)
Definition downloader_output_file (output_dir : string)
    (output_file : option string) (day month year : Z) : string :=
  match output_file with
  | Some f =>
      if bool_decide (f = "")
      then path_join output_dir
             ("onemap_" +:+ strftime_dmY day month year +:+ ".csv")
      else f
  | None =>
      path_join output_dir
        ("onemap_" +:+ strftime_dmY day month year +:+ ".csv")
  end.

(** [self.error_log_filename] *)
Definition downloader_error_log_filename (output_dir : string) : string :=
  path_join output_dir "error_log.txt".

(** [s.split(sep)] for a separator of one character: never an empty
    list. *)
Fixpoint str_split (sep : ascii) (s : string) : list string :=
  match s with
  | EmptyString => [""]
  | String c s' =>
      if bool_decide (c = sep) then "" :: str_split sep s'
      else match str_split sep s' with
           | [] => [String c ""]
           | x :: xs => String c x :: xs
           end
  end.

(** [f.split('_')[-1].split('.')[0]], the date the comparator reads in a
    file name.  Neither index can fail, a split having at least one
    element. *)
Definition date_of_filename (f : string) : string :=
  default "" (head (str_split "." (default "" (last (str_split "_" f))))).

(** [self.diff_output] as [OnemapComparator.__init__] sets it. *)
Definition comparator_diff_output (previous_file current_file : string)
    (diff_output : option string) : string :=
  let default_name :=
    "data/differences_onemap_" +:+ date_of_filename previous_file +:+ "-"
      +:+ date_of_filename current_file +:+ ".csv" in
  match diff_output with
  | Some f => if bool_decide (f = "") then default_name else f
  | None => default_name
  end.

Fixpoint occurs (c : ascii) (s : string) : bool :=
  match s with
  | EmptyString => false
  | String c' s' => bool_decide (c' = c) || occurs c s'
  end.

(** ** Further scenarios *)

(** A payload that announces five buildings, carries one, and no page. *)
Definition found_without_pages : list string -> string -> outcome response :=
  fun _ _ => reply_found 5 0 [block "1"].

(** A payload with a positive [found] and no [totalNumPages]. *)
Definition found_without_page_count
    : list string -> string -> outcome response :=
  fun _ _ =>
    Ok {| status := 200;
          json := Ok {| found := Some 1; totalNumPages := None;
                        results := None |} |}.

(** * Properties *)

(** ** Decimal formatting *)

Module FmtFacts.
Import Fmt.

Lemma app_cons (x : ascii) (a b : string) :
  String x a +:+ b = String x (a +:+ b).
Proof. reflexivity. Qed.

Lemma app_assoc (a b c : string) : (a +:+ b) +:+ c = a +:+ b +:+ c.
Proof.
  induction a as [|x a IH]; [done |]. by rewrite !app_cons, IH.
Qed.

Lemma length_app (a b : string) :
  String.length (a +:+ b) = (String.length a + String.length b)%nat.
Proof.
  induction a as [|x a IH]; [done |]. rewrite app_cons. simpl. by rewrite IH.
Qed.

Lemma int_go_app acc (a b : string) :
  int_go acc (a +:+ b) = int_go (int_go acc a) b.
Proof.
  revert acc. induction a as [|x a IH]; intros acc; [done |].
  rewrite app_cons. simpl. apply IH.
Qed.

Lemma all_digits_app (a b : string) :
  all_digits (a +:+ b) = all_digits a && all_digits b.
Proof.
  induction a as [|x a IH]; [done |].
  rewrite app_cons. simpl. by rewrite IH, andb_assoc.
Qed.

Lemma length_zeros n : String.length (zeros n) = n.
Proof. induction n as [|n IH]; simpl; [done | by f_equal]. Qed.

Lemma int_go_zeros n : int_go 0 (zeros n) = 0.
Proof. induction n as [|n IH]; simpl; [done | apply IH]. Qed.

Lemma all_digits_zeros n : all_digits (zeros n) = true.
Proof. induction n as [|n IH]; simpl; [done | apply IH]. Qed.

(** The ten digit characters. *)
Lemma pretty_N_char_digit (d : N) :
  (d < 10)%N ->
  digit_value (pretty_N_char d) = Z.of_N d /\ is_digit (pretty_N_char d) = true.
Proof.
  intros Hd.
  assert (d = 0 \/ d = 1 \/ d = 2 \/ d = 3 \/ d = 4 \/ d = 5 \/ d = 6
          \/ d = 7 \/ d = 8 \/ d = 9)%N as Hcases by lia.
  repeat (destruct Hcases as [-> | Hcases]; [by vm_compute |]).
  subst d. by vm_compute.
Qed.

(** The digit loop writes in front of what it is given. *)
Lemma pretty_N_go_app (x : N) (s : string) :
  pretty_N_go x s = pretty_N_go x "" +:+ s.
Proof.
  revert s. induction (N.lt_wf_0 x) as [x _ IH]; intros s.
  destruct (decide (x = 0%N)) as [-> | Hx]; [by rewrite !pretty_N_go_0 |].
  rewrite !(pretty_N_go_step x) by lia.
  rewrite (IH (x `div` 10)%N) by (apply N.div_lt; lia).
  rewrite (IH (x `div` 10)%N ltac:(apply N.div_lt; lia) (String _ "")).
  by rewrite app_assoc.
Qed.

Lemma pretty_N_go_snoc (x : N) :
  (0 < x)%N ->
  pretty_N_go x "" =
    pretty_N_go (x `div` 10) "" +:+ String (pretty_N_char (x `mod` 10)) "".
Proof. intros Hx. rewrite pretty_N_go_step by done. apply pretty_N_go_app. Qed.

Lemma int_pretty_N_go (x : N) : int (pretty_N_go x "") = Z.of_N x.
Proof.
  induction (N.lt_wf_0 x) as [x _ IH].
  destruct (decide (x = 0%N)) as [-> | Hx]; [done |].
  rewrite pretty_N_go_snoc by lia. unfold int in *.
  rewrite int_go_app, IH by (apply N.div_lt; lia). simpl.
  destruct (pretty_N_char_digit (x `mod` 10)%N) as [-> _].
  { apply N.mod_lt. lia. }
  rewrite N2Z.inj_div, N2Z.inj_mod. change (Z.of_N 10) with 10.
  pose proof (Z.div_mod (Z.of_N x) 10). lia.
Qed.

Lemma all_digits_pretty_N_go (x : N) : all_digits (pretty_N_go x "") = true.
Proof.
  induction (N.lt_wf_0 x) as [x _ IH].
  destruct (decide (x = 0%N)) as [-> | Hx]; [done |].
  rewrite pretty_N_go_snoc by lia.
  rewrite all_digits_app, IH by (apply N.div_lt; lia). simpl.
  destruct (pretty_N_char_digit (x `mod` 10)%N) as [_ ->]; [|done].
  apply N.mod_lt. lia.
Qed.

Lemma length_pretty_N_go (k : nat) (x : N) :
  (Z.of_N x < 10 ^ Z.of_nat k) ->
  (String.length (pretty_N_go x "") <= k)%nat.
Proof.
  revert x. induction k as [|k IH]; intros x Hx.
  - assert (x = 0%N) as -> by (change (10 ^ Z.of_nat 0) with 1 in Hx; lia).
    done.
  - destruct (decide (x = 0%N)) as [-> | Hx0]; [simpl; lia |].
    rewrite pretty_N_go_snoc by lia. rewrite length_app. simpl.
    assert (String.length (pretty_N_go (x `div` 10) "") <= k)%nat; [|lia].
    apply IH. rewrite N2Z.inj_div. change (Z.of_N 10) with 10.
    rewrite Nat2Z.inj_succ, Z.pow_succ_r in Hx by lia.
    apply Z.div_lt_upper_bound; lia.
Qed.

(** [str] on a natural number: digits only, at most [k] of them below
    [10 ^ k], and read back as the number. *)
Lemma str_nonneg (k : nat) (i : Z) :
  0 <= i < 10 ^ Z.of_nat k -> (1 <= k)%nat ->
  (String.length (str i) <= k)%nat /\ all_digits (str i) = true
  /\ int (str i) = i.
Proof.
  intros [Hlo Hhi] Hk. unfold str, pretty.
  destruct i as [|p|p]; [simpl; split; [lia | done] | | lia].
  change (pretty_Z (Z.pos p)) with (pretty_N_go (N.pos p) "").
  split; [by apply length_pretty_N_go |].
  split; [apply all_digits_pretty_N_go | apply (int_pretty_N_go (N.pos p))].
Qed.

(** A number of at most six digits becomes exactly six digit characters
    that read back as the number. *)
Lemma format_06d_spec (i : Z) :
  0 <= i < 1000000 ->
  String.length (format_06d i) = 6%nat
  /\ all_digits (format_06d i) = true
  /\ int (format_06d i) = i.
Proof.
  intros Hi. unfold format_06d.
  assert ((i <? 0) = false) as -> by lia.
  replace (Z.abs i) with i by lia.
  destruct (str_nonneg 6 i) as (Hlen & Hdig & Hint); [done | lia |].
  change (String.append "" ?s) with s. change (String.length "") with 0%nat.
  rewrite length_app, length_zeros, all_digits_app, all_digits_zeros, Hdig.
  unfold int. rewrite int_go_app, int_go_zeros. fold (int (str i)).
  split; [lia | done].
Qed.

End FmtFacts.

(** ** The key space *)

Section KeySpace.

Lemma length_postal_codes : length postal_codes = Z.to_nat 820000.
Proof. unfold postal_codes, range. by rewrite length_fmap, length_seqZ. Qed.

Lemma lookup_postal_codes (n : nat) :
  Z.of_nat n < 820000 ->
  postal_codes !! n = Some (Fmt.format_06d (10000 + Z.of_nat n)).
Proof.
  intros Hn. unfold postal_codes, range.
  rewrite list_lookup_fmap, lookup_seqZ_lt by lia. done.
Qed.

Lemma lookup_postal_codes_inv (n : nat) (key : string) :
  postal_codes !! n = Some key ->
  Z.of_nat n < 820000 /\ key = Fmt.format_06d (10000 + Z.of_nat n).
Proof.
  intros Hkey.
  assert (n < length postal_codes)%nat as Hlt by (by eapply lookup_lt_Some).
  rewrite length_postal_codes in Hlt.
  assert (Z.of_nat n < 820000) as Hn by lia.
  rewrite lookup_postal_codes in Hkey by done. split; congruence.
Qed.

Lemma postal_codes_head :
  postal_codes = "010000" :: (Fmt.format_06d <$> range 10001 830000).
Proof.
  unfold postal_codes, range. rewrite seqZ_cons by lia.
  rewrite fmap_cons. f_equal.
Qed.

End KeySpace.

(** C7.  The generator yields 820000 keys; the key at position [n] is the
    integer [10000 + n] written with [06d], which is six decimal digits that
    read back as [10000 + n]; so the keys are exactly the integers of
    [10000, 830000), one each, in ascending numeric order.  The list is a
    closed value: it depends neither on the transport nor on the world, and
    building it changes neither. *)
Theorem postal_codes_key_space :
  Z.of_nat (length postal_codes) = 820000
  /\ (forall n : nat, Z.of_nat n < 820000 ->
        exists key,
          postal_codes !! n = Some key
          /\ key = Fmt.format_06d (10000 + Z.of_nat n)
          /\ String.length key = 6%nat
          /\ Fmt.all_digits key = true
          /\ Fmt.int key = 10000 + Z.of_nat n)
  /\ (forall key, key ∈ postal_codes <->
        exists i, 10000 <= i < 830000 /\ key = Fmt.format_06d i)
  /\ (forall (m n : nat) (k1 k2 : string),
        postal_codes !! m = Some k1 -> postal_codes !! n = Some k2 ->
        (m < n)%nat -> Fmt.int k1 < Fmt.int k2)
  /\ NoDup postal_codes.
Proof.
  assert (forall n : nat, Z.of_nat n < 820000 ->
            Fmt.int (Fmt.format_06d (10000 + Z.of_nat n)) = 10000 + Z.of_nat n)
    as Hint.
  { intros n Hn. apply FmtFacts.format_06d_spec. lia. }
  split; [rewrite length_postal_codes; lia |].
  split.
  { intros n Hn. eexists. split; [by apply lookup_postal_codes |].
    split; [done |].
    destruct (FmtFacts.format_06d_spec (10000 + Z.of_nat n)) as (? & ? & ?);
      [lia | done]. }
  split.
  { intros key. unfold postal_codes, range. rewrite list_elem_of_fmap.
    setoid_rewrite elem_of_seqZ. split.
    - intros (i & -> & Hi). exists i. split; [lia | done].
    - intros (i & Hi & ->). exists i. split; [done | lia]. }
  split.
  { intros m n k1 k2 H1 H2 Hmn.
    apply lookup_postal_codes_inv in H1 as [Hm ->].
    apply lookup_postal_codes_inv in H2 as [Hn ->].
    rewrite !Hint by done. lia. }
  apply NoDup_alt. intros m n key H1 H2.
  apply lookup_postal_codes_inv in H1 as [Hm ->].
  apply lookup_postal_codes_inv in H2 as [Hn Heq].
  apply (f_equal Fmt.int) in Heq. rewrite !Hint in Heq by done. lia.
Qed.

(** The first two keys. *)
Lemma postal_codes_key_space_witness :
  postal_codes !! 0%nat = Some "010000"
  /\ postal_codes !! 1%nat = Some "010001".
Proof.
  destruct postal_codes_key_space as (_ & Hkeys & _).
  split.
  - destruct (Hkeys 0%nat) as (key & -> & -> & _); [lia | reflexivity].
  - destruct (Hkeys 1%nat) as (key & -> & -> & _); [lia | reflexivity].
Defined.

(** ** The monad *)

Section MonadFacts.

Context {A B : Type}.

Lemma bind_ok (m : M A) (f : A -> M B) (w w' : world) (a : A) :
  m w = (Ok a, w') -> (m ≫= f) w = f a w'.
Proof. intros H. unfold mbind, M_bind. by rewrite H. Qed.

Lemma bind_raise (m : M A) (f : A -> M B) (w w' : world) (e : exn) :
  m w = (Raise e, w') -> (m ≫= f) w = (Raise e, w').
Proof. intros H. unfold mbind, M_bind. by rewrite H. Qed.

Lemma bind_ret (a : A) (f : A -> M B) (w : world) : (mret a ≫= f) w = f a w.
Proof. reflexivity. Qed.

End MonadFacts.

Ltac run_monad :=
  unfold try_except, mbind, M_bind, mret, M_ret, raise, read_json, session_get;
  simpl.

(** ** The error sink *)

Section ErrorSink.

Lemma log_error_writable (postal_code error : string) (w : world)
    (written : list string) :
  error_log w = Writable written ->
  log_error postal_code error w = (Ok (), logged (entry postal_code error) w).
Proof. intros H. unfold log_error, logged. by rewrite H. Qed.

Lemma log_error_unwritable (postal_code error err : string) (w : world) :
  error_log w = Unwritable err ->
  log_error postal_code error w = (Raise (Error err), w).
Proof. intros H. unfold log_error. by rewrite H. Qed.

(** Whatever happens, [log_error] issues no request and raises no
    timeout. *)
Lemma log_error_fails (postal_code error err : string) (w : world) :
  write_error (error_log w) = Some err ->
  log_error postal_code error w = (Raise (Error err), w).
Proof.
  unfold log_error.
  destruct (error_log w) as [written | err' | written err']; [done | |];
    by intros [= ->].
Qed.

Lemma log_error_cases (postal_code error : string) (w : world) :
  (exists written, error_log w = Writable written
     /\ log_error postal_code error w
        = (Ok (), logged (entry postal_code error) w))
  \/ (exists err, write_error (error_log w) = Some err
     /\ log_error postal_code error w = (Raise (Error err), w)).
Proof.
  destruct (error_log w) as [written | err | written err] eqn:Hlog.
  - left. exists written. split; [done |]. by apply log_error_writable with written.
  - right. exists err. split; [done |]. apply log_error_fails. by rewrite Hlog.
  - right. exists err. split; [done |]. apply log_error_fails. by rewrite Hlog.
Qed.

Lemma log_then_ret {A : Type} (postal_code error : string) (a r : A)
    (w w' : world) :
  (log_error postal_code error;; mret a) w = (Ok r, w') -> r = a.
Proof.
  unfold mbind, M_bind.
  destruct (log_error_cases postal_code error w)
    as [(written & _ & ->) | (err & _ & ->)]; [| done].
  by intros [= -> _].
Qed.

End ErrorSink.

(** ** Fetch with retry *)

Section FetchFacts.

Variable tr : list string -> string -> outcome response.
Variable key : string.

Let url : string := probe_url key.

(** One attempt, by the verdict on its reply. *)
Lemma fetch_attempt_verdict (retries attempt : Z) (w : world) :
  fetch_attempt tr key retries attempt w =
    match classify (tr (requests w) url) with
    | Success j => (Ok (Return j), sent url w)
    | TimedOut =>
        if attempt <? retries - 1 then (Ok Next, sent url w)
        else (log_error key "Timeout after retries";; mret Next) (sent url w)
    | Failed reason => (log_error key reason;; mret Break) (sent url w)
    end.
Proof.
  unfold fetch_attempt, classify. run_monad. fold url. fold (sent url w).
  destruct (tr (requests w) url) as [r | [|msg]]; simpl;
    [| by destruct (attempt <? retries - 1) | done].
  destruct (status r =? 200) eqn:Hst.
  - destruct (json r) as [j | [|msg]]; simpl;
      [done | by destruct (attempt <? retries - 1) | done].
  - destruct (log_error_cases key ("HTTP " +:+ Fmt.str (status r)) (sent url w))
      as [(written & Hlog & ->) | (err & Hlog & ->)]; [done |].
    by rewrite (log_error_fails _ _ err).
Qed.

(** The reply to attempt number [i] (from 0) of a probe started in [w]. *)
Let reply (w : world) (i : nat) : outcome response :=
  tr (requests w ++ replicate i url) url.

(** The world after [n] attempts and nothing logged. *)
Let tried (n : nat) (w : world) : world :=
  {| requests := requests w ++ replicate n url; error_log := error_log w |}.

Lemma replicate_after_sent (w : world) (i : nat) :
  requests (sent url w) ++ replicate i url
  = requests w ++ replicate (S i) url.
Proof. simpl. by rewrite <- app_assoc. Qed.

(** The retry loop over [m] attempts numbered from [a], when the budget is
    [a + m]: [n] requests are sent, every one but the last is answered by a
    timeout, and the last one decides the result. *)
Lemma fetch_postal_loop_spec (retries : Z) (m : nat) :
  forall (a : Z) (w : world),
    m = 0%nat \/ retries = a + Z.of_nat m ->
    exists (n : nat) (r : outcome (option SearchResponse)) (w' : world),
      fetch_postal_loop tr key retries (seqZ a (Z.of_nat m)) w = (r, w')
      /\ (n <= m)%nat
      /\ requests w' = requests w ++ replicate n url
      /\ (forall i, (S i < n)%nat -> classify (reply w i) = TimedOut)
      /\ ((m = 0%nat /\ n = 0%nat /\ r = Ok None /\ w' = w)
          \/ (exists i j, n = S i /\ classify (reply w i) = Success j
                /\ r = Ok (Some j) /\ w' = tried n w)
          \/ (exists i reason, n = S i
                /\ classify (reply w i) = Failed reason
                /\ (r, w') = (log_error key reason;; mret None) (tried n w))
          \/ (exists i, n = S i /\ n = m
                /\ classify (reply w i) = TimedOut
                /\ (r, w') = (log_error key "Timeout after retries";;
                              mret None) (tried n w))).
Proof.
  induction m as [|m IH]; intros a w Hbudget.
  { exists 0%nat, (Ok None), w. rewrite seqZ_nil by done. simpl.
    rewrite app_nil_r. repeat split; [lia | | by left]. intros i Hi. lia. }
  destruct Hbudget as [? | ->]; [done |].
  rewrite seqZ_cons by lia.
  replace (Z.pred (Z.of_nat (S m))) with (Z.of_nat m) by lia.
  cbn [fetch_postal_loop].
  assert (tried 1 w = sent url w) as Hone by done.
  assert (reply w 0 = tr (requests w) url) as Hzero
    by (unfold reply; simpl; by rewrite app_nil_r).
  destruct (classify (tr (requests w) url)) as [j | | reason] eqn:Hcl.
  - (* success *)
    exists 1%nat, (Ok (Some j)), (sent url w).
    split; [unfold mbind, M_bind; by rewrite fetch_attempt_verdict, Hcl |].
    repeat split; [lia | intros i Hi; lia |].
    right. left. exists 0%nat, j. by rewrite Hzero.
  - (* timeout *)
    destruct (a <? a + Z.of_nat (S m) - 1) eqn:Hlast.
    + pose proof (proj1 (Z.ltb_lt _ _) Hlast) as Hlt.
      destruct (IH (Z.succ a) (sent url w))
        as (n & r & w' & Hrun & Hn & Hreq & Hto & Hend); [right; lia |].
      exists (S n), r, w'.
      split.
      { unfold mbind, M_bind. rewrite fetch_attempt_verdict, Hcl, Hlast. done. }
      split; [lia |].
      split; [by rewrite Hreq, replicate_after_sent |].
      split.
      { intros [|i] Hi; [by rewrite Hzero |].
        unfold reply. rewrite <- replicate_after_sent. apply Hto. lia. }
      assert (tried n (sent url w) = tried (S n) w) as Htried
        by (unfold tried; by rewrite replicate_after_sent).
      assert (forall i, reply (sent url w) i = reply w (S i)) as Hreply
        by (intros i; unfold reply; by rewrite replicate_after_sent).
      destruct Hend as [(-> & _) | [(i & j & -> & Hj & -> & ->)
        | [(i & reason & -> & Hf & Hlog) | (i & -> & <- & Ht & Hlog)]]].
      * lia.
      * right. left. exists (S i), j. by rewrite <- Hreply, <- Htried.
      * right. right. left. exists (S i), reason.
        by rewrite <- Hreply, <- Htried.
      * right. right. right. exists (S i). by rewrite <- Hreply, <- Htried.
    + pose proof (proj1 (Z.ltb_ge _ _) Hlast) as Hge.
      assert (m = 0%nat) as -> by lia.
      destruct ((log_error key "Timeout after retries";;
                mret (@None SearchResponse)) (sent url w))
        as [r w'] eqn:Hlog.
      exists 1%nat, r, w'.
      assert (requests w' = requests (sent url w)) as Hreq.
      { revert Hlog. unfold mbind, M_bind.
        destruct (log_error_cases key "Timeout after retries" (sent url w))
          as [(written & _ & ->) | (err & _ & ->)]; by intros [= <- <-]. }
      split.
      { unfold mbind, M_bind. rewrite fetch_attempt_verdict, Hcl, Hlast.
        revert Hlog. unfold mbind, M_bind.
        destruct (log_error key "Timeout after retries" (sent url w))
          as [[[]|e] w1]; by intros [= <- <-]. }
      repeat split; [lia | done | intros i Hi; lia |].
      right. right. right. exists 0%nat. by rewrite Hzero, Hone, Hlog.
  - (* failure *)
    destruct ((log_error key reason;; mret (@None SearchResponse)) (sent url w))
      as [r w'] eqn:Hlog.
    exists 1%nat, r, w'.
    assert (requests w' = requests (sent url w)) as Hreq.
    { revert Hlog. unfold mbind, M_bind.
      destruct (log_error_cases key reason (sent url w))
        as [(written & _ & ->) | (err & _ & ->)]; by intros [= <- <-]. }
    split.
    { unfold mbind, M_bind. rewrite fetch_attempt_verdict, Hcl.
      revert Hlog. unfold mbind, M_bind.
      destruct (log_error key reason (sent url w))
        as [[[]|e] w1]; by intros [= <- <-]. }
    repeat split; [lia | done | intros i Hi; lia |].
    right. right. left. exists 0%nat, reason. by rewrite Hzero, Hone, Hlog.
Qed.

End FetchFacts.

(** C3, as amended.  [fetch_postal] sends [n] requests for the key, [n]
    within the budget; every request but the last was answered by a timeout,
    so a reply that is not a timeout is never followed by another attempt;
    with a positive budget, and when the entry can be written to the error
    log, the call ends in exactly one of two ways, the decoded payload and no
    line logged, or [None] and one line logged; and when every attempt of the
    budget times out that line carries "Timeout after retries". *)
Theorem fetch_postal_retry_budget
    (tr : list string -> string -> outcome response) (key : string)
    (retries : Z) (w : world) :
  let url := probe_url key in
  let reply (i : nat) := classify (tr (requests w ++ replicate i url) url) in
  exists (n : nat) (r : outcome (option SearchResponse)) (w' : world),
    fetch_postal tr key retries w = (r, w')
    /\ requests w' = requests w ++ replicate n url
    /\ Z.of_nat n <= Z.max 0 retries
    /\ (forall i, (S i < n)%nat -> reply i = TimedOut)
    /\ (forall written, error_log w = Writable written -> 0 < retries ->
          (1 <= n)%nat
          /\ ((exists j, reply (n - 1)%nat = Success j /\ r = Ok (Some j)
                 /\ error_log w' = Writable written)
              \/ (exists reason, r = Ok None
                 /\ error_log w' = Writable (written ++ [entry key reason])
                 /\ (reply (n - 1)%nat = Failed reason
                     \/ (reply (n - 1)%nat = TimedOut /\ Z.of_nat n = retries
                         /\ reason = "Timeout after retries")))))
    /\ (forall written, error_log w = Writable written -> 0 < retries ->
          (forall i, Z.of_nat i < retries -> reply i = TimedOut) ->
          Z.of_nat n = retries /\ r = Ok None
          /\ error_log w'
             = Writable (written ++ [entry key "Timeout after retries"])).
Proof.
  intros url reply.
  destruct (fetch_postal_loop_spec tr key retries (Z.to_nat retries) 0 w)
    as (n & r & w' & Hrun & Hn & Hreq & Hto & Hend).
  { destruct (decide (0 < retries)); [right | left]; lia. }
  assert (range 0 retries = seqZ 0 (Z.of_nat (Z.to_nat retries))) as Hrange.
  { unfold range. destruct (decide (0 <= retries)).
    - by rewrite Z2Nat.id, Z.sub_0_r.
    - by rewrite !seqZ_nil by lia. }
  assert (forall written reason (x : outcome (option SearchResponse)) x',
            error_log w = Writable written ->
            (x, x') = (log_error key reason;; mret None)
                        {| requests := requests w ++ replicate n url;
                           error_log := error_log w |} ->
            x = Ok None
            /\ error_log x' = Writable (written ++ [entry key reason]))
    as Hlogged.
  { intros written reason x x' Hw. unfold mbind, M_bind.
    rewrite (log_error_writable _ _ _ written) by done.
    intros [= -> ->]. unfold logged. simpl. by rewrite Hw. }
  assert (forall written, error_log w = Writable written -> 0 < retries ->
            (1 <= n)%nat
            /\ ((exists j, reply (n - 1)%nat = Success j /\ r = Ok (Some j)
                   /\ error_log w' = Writable written)
                \/ (exists reason, r = Ok None
                   /\ error_log w' = Writable (written ++ [entry key reason])
                   /\ (reply (n - 1)%nat = Failed reason
                       \/ (reply (n - 1)%nat = TimedOut
                           /\ Z.of_nat n = retries
                           /\ reason = "Timeout after retries")))))
    as Hterminal.
  { intros written Hw Hpos.
    destruct Hend as [(Hm & _) | [(i & j & -> & Hj & -> & ->)
      | [(i & reason & -> & Hf & Hlog) | (i & -> & Hnm & Ht & Hlog)]]].
    - lia.
    - split; [lia |]. left. exists j.
      replace (S i - 1)%nat with i by lia. done.
    - split; [lia |]. right. exists reason.
      destruct (Hlogged _ _ _ _ Hw Hlog) as [-> ->].
      replace (S i - 1)%nat with i by lia. split; [done |]. split; [done |].
      by left.
    - split; [lia |]. right. exists "Timeout after retries".
      destruct (Hlogged _ _ _ _ Hw Hlog) as [-> ->].
      replace (S i - 1)%nat with i by lia. split; [done |]. split; [done |].
      right. split; [done |]. split; [lia | done]. }
  exists n, r, w'.
  split; [unfold fetch_postal; by rewrite Hrange |].
  split; [done |]. split; [lia |]. split; [done |]. split; [done |].
  intros written Hw Hpos Hall.
  destruct (Hterminal written Hw Hpos)
    as [Hone [(j & Hj & _) | (reason & -> & Hlog & [Hf | (_ & Hfull & ->)])]].
  - rewrite Hall in Hj by lia. done.
  - rewrite Hall in Hf by lia. done.
  - done.
Qed.

(** The budget of three spent on three timeouts. *)
Lemma fetch_postal_retry_budget_witness :
  exists w',
    fetch_postal always_timeout "118411" 3 fresh_world = (Ok None, w')
    /\ length (requests w') = 3%nat
    /\ error_log w'
       = Writable [entry "118411" "Timeout after retries"].
Proof.
  destruct (fetch_postal_retry_budget always_timeout "118411" 3 fresh_world)
    as (n & r & w' & Hrun & Hreq & _ & _ & _ & Hall).
  destruct (Hall [] eq_refl ltac:(lia)) as (Hn & -> & Hlog); [done |].
  exists w'. split; [done |]. split; [| done].
  rewrite Hreq, length_app, length_replicate. simpl. lia.
Defined.

Section ProbeFacts.

Variable tr : list string -> string -> outcome response.

(** A probe that returns a payload has logged nothing. *)
Lemma fetch_postal_some (key : string) (retries : Z) (w w1 : world)
    (j : SearchResponse) :
  fetch_postal tr key retries w = (Ok (Some j), w1) ->
  error_log w1 = error_log w.
Proof.
  intros Hrun.
  destruct (fetch_postal_loop_spec tr key retries (Z.to_nat retries) 0 w)
    as (n & r & w' & Hloop & _ & _ & _ & Hend).
  { destruct (decide (0 < retries)); [right | left]; lia. }
  assert (fetch_postal tr key retries w = (r, w')) as Hsame.
  { unfold fetch_postal, range. rewrite <- Hloop.
    destruct (decide (0 <= retries)).
    - by rewrite Z2Nat.id, Z.sub_0_r.
    - by rewrite !seqZ_nil by lia. }
  rewrite Hrun in Hsame. injection Hsame as <- <-.
  destruct Hend as [(_ & _ & ? & _) | [(i & j' & _ & _ & _ & ->)
    | [(i & reason & _ & _ & Hlog) | (i & _ & _ & _ & Hlog)]]];
    [done | done | |];
    revert Hlog; unfold mbind, M_bind;
    match goal with
    | |- context [log_error ?k ?e ?x] =>
        destruct (log_error k e x) as [[[]|?] ?]
    end; by intros [= ].
Qed.

End ProbeFacts.

(** C8.  When the probe of a key returns a payload whose [found] is 0,
    [process_postal] returns the empty list in the world the probe left, and
    the error log is as it was: no page is requested and no line is
    written. *)
Theorem found_zero_is_not_a_failure
    (tr : list string -> string -> outcome response) (key : string)
    (w w1 : world) (j : SearchResponse) :
  fetch_postal tr key 3 w = (Ok (Some j), w1) ->
  found j = Some 0 ->
  process_postal tr key w = (Ok [], w1) /\ error_log w1 = error_log w.
Proof.
  intros Hprobe Hfound. split; [| by eapply fetch_postal_some].
  unfold process_postal. rewrite (bind_ok _ _ _ _ _ Hprobe), Hfound. done.
Qed.

(** Key 999999 on a transport that finds nothing. *)
Lemma found_zero_is_not_a_failure_witness :
  process_postal nothing_found "999999" fresh_world
  = (Ok [], sent (probe_url "999999") fresh_world)
  /\ error_log (sent (probe_url "999999") fresh_world) = Writable [].
Proof.
  apply (found_zero_is_not_a_failure nothing_found "999999" fresh_world
           (sent (probe_url "999999") fresh_world)
           {| found := Some 0; totalNumPages := Some 0; results := Some [] |});
    reflexivity.
Defined.

(** ** Page aggregation *)

Section PageFacts.

Variable tr : list string -> string -> outcome response.
Variable key : string.

(** One page, by what the transport replies. *)
Lemma fetch_page_reply (page : Z) (records : list row) (w : world) :
  fetch_page tr key page records w =
    let w1 := sent (page_url key page) w in
    let timeout :=
      (log_error key ("Page " +:+ Fmt.str page +:+ " timeout");;
       mret records) w1 in
    match tr (requests w) (page_url key page) with
    | Ok r =>
        if status r =? 200 then
          match json r with
          | Ok data =>
              (Ok (records ++ (record_of_item <$> default [] (results data))),
               w1)
          | Raise TimeoutError => timeout
          | Raise (Error msg) => (Raise (Error msg), w1)
          end
        else (Ok records, w1)
    | Raise TimeoutError => timeout
    | Raise (Error msg) => (Raise (Error msg), w1)
    end.
Proof.
  unfold fetch_page. run_monad. fold (sent (page_url key page) w).
  destruct (tr (requests w) (page_url key page)) as [r | [|msg]];
    simpl; [| done | done].
  destruct (status r =? 200); [| done].
  by destruct (json r) as [data | [|msg]].
Qed.

Lemma fetch_page_timeout (page : Z) (records : list row) (w : world)
    (written : list string) :
  error_log w = Writable written ->
  classify (tr (requests w) (page_url key page)) = TimedOut ->
  fetch_page tr key page records w
  = (Ok records,
     logged (entry key ("Page " +:+ Fmt.str page +:+ " timeout"))
       (sent (page_url key page) w)).
Proof.
  intros Hw Hto. rewrite fetch_page_reply. cbv zeta.
  unfold mbind, M_bind.
  rewrite (log_error_writable _ _ _ written) by done.
  unfold classify in Hto.
  destruct (tr (requests w) (page_url key page)) as [r | [|msg]];
    [| done | done].
  destruct (status r =? 200); [| done].
  by destruct (json r) as [data | [|msg]].
Qed.

Lemma fetch_page_other_status (page : Z) (records : list row) (w : world)
    (r : response) :
  tr (requests w) (page_url key page) = Ok r ->
  status r <> 200 ->
  fetch_page tr key page records w
  = (Ok records, sent (page_url key page) w).
Proof.
  intros Hr Hst. rewrite fetch_page_reply, Hr. cbv zeta.
  by rewrite (proj2 (Z.eqb_neq _ _) Hst).
Qed.

(** Rows are only ever added, and every added row comes from an item. *)
Lemma fetch_page_rows (page : Z) (records records' : list row)
    (w w' : world) :
  fetch_page tr key page records w = (Ok records', w') ->
  exists items, records' = records ++ (record_of_item <$> items).
Proof.
  rewrite fetch_page_reply. cbv zeta.
  destruct (tr (requests w) (page_url key page)) as [r | [|msg]];
    [| | done].
  - destruct (status r =? 200).
    + destruct (json r) as [data | [|msg]]; [| | done].
      * intros [= <- _]. by eexists.
      * intros ->%log_then_ret. exists []. by rewrite app_nil_r.
    + intros [= <- _]. exists []. by rewrite app_nil_r.
  - intros ->%log_then_ret. exists []. by rewrite app_nil_r.
Qed.

Lemma page_loop_rows (pages : list Z) :
  forall (records records' : list row) (w w' : world),
    page_loop tr key pages records w = (Ok records', w') ->
    exists items, records' = records ++ (record_of_item <$> items).
Proof.
  induction pages as [|page rest IH]; intros records records' w w' Hrun.
  - injection Hrun as <- _. exists []. by rewrite app_nil_r.
  - cbn [page_loop] in Hrun. unfold mbind, M_bind in Hrun.
    destruct (fetch_page tr key page records w) as [[mid|e] w1] eqn:Hpage;
      [| done].
    apply fetch_page_rows in Hpage as [items1 ->].
    apply IH in Hrun as [items2 ->].
    exists (items1 ++ items2). by rewrite fmap_app, app_assoc.
Qed.

Lemma process_postal_rows (records : list row) (w w' : world) :
  process_postal tr key w = (Ok records, w') ->
  exists items, records = record_of_item <$> items.
Proof.
  unfold process_postal, mbind, M_bind.
  destruct (fetch_postal tr key 3 w) as [[[j|]|e] w1]; [| | done].
  - destruct (0 <? default 0 (found j)).
    + destruct (totalNumPages j) as [n|]; [| done].
      intros Hrun. by apply page_loop_rows in Hrun as [items ->]; exists items.
    + intros [= <- _]. by exists [].
  - intros [= <- _]. by exists [].
Qed.

End PageFacts.

(** C5, as amended.  When the entry can be written to the error log, a page
    request that times out leaves the records gathered so far as they are,
    appends the line "Error with postal code <key>: Page <page> timeout",
    raises nothing, and the loop goes on to the remaining pages exactly as it
    would have: the other pages are fetched and their records kept. *)
Theorem page_timeout_is_logged_and_skipped
    (tr : list string -> string -> outcome response) (key : string)
    (page : Z) (rest : list Z) (records : list row) (w : world)
    (written : list string) :
  error_log w = Writable written ->
  classify (tr (requests w) (page_url key page)) = TimedOut ->
  let w' := logged (entry key ("Page " +:+ Fmt.str page +:+ " timeout"))
              (sent (page_url key page) w) in
  fetch_page tr key page records w = (Ok records, w')
  /\ error_log w'
     = Writable (written ++ [entry key ("Page " +:+ Fmt.str page +:+ " timeout")])
  /\ page_loop tr key (page :: rest) records w
     = page_loop tr key rest records w'.
Proof.
  intros Hw Hto w'.
  pose proof (fetch_page_timeout tr key page records w written Hw Hto) as Hpage.
  split; [done |]. split.
  - unfold w', logged. simpl. by rewrite Hw.
  - cbn [page_loop]. by rewrite (bind_ok _ _ _ _ _ Hpage).
Qed.

(** Page 1 of 3 is in, page 2 times out, page 3 answers: the records of pages
    1 and 3, one line for page 2. *)
Lemma page_timeout_is_logged_and_skipped_witness :
  let tr := three_pages (Raise TimeoutError) in
  let w := {| requests := [probe_url "118411"; page_url "118411" 1];
              error_log := Writable [] |} in
  exists w',
    page_loop tr "118411" [2; 3] [record_of_item (block "1")] w
    = (Ok [record_of_item (block "1"); record_of_item (block "3")], w')
    /\ error_log w' = Writable [entry "118411" "Page 2 timeout"].
Proof.
  intros tr w.
  destruct (page_timeout_is_logged_and_skipped tr "118411" 2 [3]
              [record_of_item (block "1")] w [] eq_refl eq_refl)
    as (_ & _ & ->).
  eexists. split; reflexivity.
Defined.

(** C10.  A page request answered with a status other than 200 adds no
    record, writes nothing to the error log, raises nothing, and the loop
    goes on to the remaining pages: apart from the request itself the page
    leaves no trace. *)
Theorem page_other_status_is_skipped_silently
    (tr : list string -> string -> outcome response) (key : string)
    (page : Z) (rest : list Z) (records : list row) (w : world)
    (r : response) :
  tr (requests w) (page_url key page) = Ok r ->
  status r <> 200 ->
  let w' := sent (page_url key page) w in
  fetch_page tr key page records w = (Ok records, w')
  /\ error_log w' = error_log w
  /\ page_loop tr key (page :: rest) records w
     = page_loop tr key rest records w'.
Proof.
  intros Hr Hst w'.
  pose proof (fetch_page_other_status tr key page records w r Hr Hst) as Hpage.
  split; [done |]. split; [done |].
  cbn [page_loop]. by rewrite (bind_ok _ _ _ _ _ Hpage).
Qed.

(** Page 2 of 3 answers 404: the records of pages 1 and 3, an empty log. *)
Lemma page_other_status_is_skipped_silently_witness :
  let tr := three_pages (reply_status 404) in
  let w := {| requests := [probe_url "118411"; page_url "118411" 1];
              error_log := Writable [] |} in
  exists w',
    page_loop tr "118411" [2; 3] [record_of_item (block "1")] w
    = (Ok [record_of_item (block "1"); record_of_item (block "3")], w')
    /\ error_log w' = Writable [].
Proof.
  intros tr w.
  destruct (page_other_status_is_skipped_silently tr "118411" 2 [3]
              [record_of_item (block "1")] w
              {| status := 404;
                 json := Ok {| found := None; totalNumPages := None;
                               results := None |} |}
              eq_refl ltac:(simpl; lia))
    as (_ & _ & ->).
  eexists. split; reflexivity.
Defined.

(** The two scenarios from the probe on. *)
Example process_postal_page_timeout :
  process_postal (three_pages (Raise TimeoutError)) "118411" fresh_world
  = (Ok [record_of_item (block "1"); record_of_item (block "3")],
     {| requests := [probe_url "118411"; page_url "118411" 1;
                     page_url "118411" 2; page_url "118411" 3];
        error_log := Writable [entry "118411" "Page 2 timeout"] |}).
Proof. reflexivity. Qed.

Example process_postal_page_404 :
  process_postal (three_pages (reply_status 404)) "118411" fresh_world
  = (Ok [record_of_item (block "1"); record_of_item (block "3")],
     {| requests := [probe_url "118411"; page_url "118411" 1;
                     page_url "118411" 2; page_url "118411" 3];
        error_log := Writable [] |}).
Proof. reflexivity. Qed.

Example fetch_postal_third_time_lucky :
  fetch_postal third_time_lucky "118411" 3 fresh_world
  = (Ok (Some {| found := Some 0; totalNumPages := Some 0;
                 results := Some [] |}),
     {| requests := replicate 3 (probe_url "118411");
        error_log := Writable [] |}).
Proof. reflexivity. Qed.

Example fetch_postal_http_500 :
  fetch_postal always_500 "118411" 3 fresh_world
  = (Ok None,
     {| requests := [probe_url "118411"];
        error_log := Writable [entry "118411" "HTTP 500"] |}).
Proof. reflexivity. Qed.

(** ** The table *)

Section TableFacts.

Lemma add_columns_app (cols a b : list string) :
  add_columns cols (a ++ b) = add_columns (add_columns cols a) b.
Proof.
  revert cols. induction a as [|c a IH]; intros cols; [done |]. apply IH.
Qed.

Lemma add_columns_known (cols new : list string) :
  Forall (fun c => c ∈ cols) new -> add_columns cols new = cols.
Proof.
  induction 1 as [|c new Hc _ IH]; [done |].
  simpl. by rewrite bool_decide_eq_true_2.
Qed.

Lemma record_of_item_labels (item : gmap string string) :
  (record_of_item item).*1 = columns init_df.
Proof. reflexivity. Qed.

(** A non-empty batch of mapped items has the six labels of [__init__]. *)
Lemma DataFrame_of_columns (items : list (gmap string string)) :
  items <> [] ->
  columns (DataFrame_of (record_of_item <$> items)) = columns init_df.
Proof.
  destruct items as [|item items]; [done | intros _].
  unfold DataFrame_of. cbn [columns fmap list_fmap concat].
  rewrite record_of_item_labels, add_columns_app.
  change (add_columns [] (columns init_df)) with (columns init_df).
  apply add_columns_known. apply Forall_forall. intros c Hc.
  apply list_elem_of_In, in_concat in Hc as (labels & Hin & Hc).
  apply list_elem_of_In, list_elem_of_fmap in Hin as (r & -> & Hr).
  apply list_elem_of_fmap in Hr as (item' & -> & _).
  rewrite record_of_item_labels in Hc. by apply list_elem_of_In.
Qed.

Lemma concat_df_columns (a b : DataFrame) :
  columns (concat_df a b) = add_columns (columns a) (columns b).
Proof. reflexivity. Qed.

Lemma flush_app (a b : list (list row)) (df : DataFrame) :
  flush (a ++ b) df = flush b (flush a df).
Proof. unfold flush. apply fold_left_app. Qed.

(** A flush appends every row of every batch, in order. *)
Lemma flush_rows (completed : list (list row)) (df : DataFrame) :
  rows (flush completed df) = rows df ++ concat completed.
Proof.
  revert df. induction completed as [|batch completed IH]; intros df.
  - simpl. by rewrite app_nil_r.
  - change (flush (batch :: completed) df)
      with (flush completed
              match batch with
              | [] => df
              | _ :: _ => concat_df df (DataFrame_of batch)
              end).
    rewrite IH. destruct batch as [|r batch]; [done |].
    cbn [concat_df rows DataFrame_of concat]. by rewrite <- app_assoc.
Qed.

(** A flush of mapped items leaves the labels of [__init__] alone. *)
Lemma flush_columns (completed : list (list row)) (df : DataFrame) :
  columns df = columns init_df ->
  Forall (fun batch => exists items, batch = record_of_item <$> items)
    completed ->
  columns (flush completed df) = columns init_df.
Proof.
  intros Hdf Hall. revert df Hdf.
  induction Hall as [|batch completed [items ->] _ IH]; intros df Hdf;
    [done |].
  change (flush ((record_of_item <$> items) :: completed) df)
    with (flush completed
            match record_of_item <$> items with
            | [] => df
            | _ :: _ => concat_df df (DataFrame_of (record_of_item <$> items))
            end).
  apply IH. destruct items as [|item items]; [done |].
  change (columns (concat_df df
                     (DataFrame_of (record_of_item <$> item :: items)))
          = columns init_df).
  rewrite concat_df_columns, DataFrame_of_columns, Hdf by done.
  apply add_columns_known. apply Forall_forall. by intros c Hc.
Qed.

Lemma flush_nothing (completed : list (list row)) (df : DataFrame) :
  Forall (fun batch => batch = []) completed -> flush completed df = df.
Proof. induction 1 as [|batch completed -> _ IH]; [done | apply IH]. Qed.

End TableFacts.

(** ** The scheduler *)

Section SchedulerFacts.

Variable tr : list string -> string -> outcome response.

Lemma run_tasks_cons (t : coroutine) (rest : list coroutine) (w : world) :
  run_tasks (t :: rest) w =
    match coro_body t w with
    | (Ok r, w1) =>
        match run_tasks rest w1 with
        | (Ok rs, w2) => (Ok (r :: rs), w2)
        | (Raise e, w2) => (Raise e, w2)
        end
    | (Raise e, w1) => (Raise e, w1)
    end.
Proof.
  cbn [run_tasks]. unfold mbind, M_bind.
  destruct (coro_body t w) as [[r|e] w1]; [| done].
  by destruct (run_tasks rest w1) as [[rs|e] w2].
Qed.

Lemma run_tasks_app (a b : list coroutine) (w : world) :
  run_tasks (a ++ b) w =
    match run_tasks a w with
    | (Ok ra, w1) =>
        match run_tasks b w1 with
        | (Ok rb, w2) => (Ok (ra ++ rb), w2)
        | (Raise e, w2) => (Raise e, w2)
        end
    | (Raise e, w1) => (Raise e, w1)
    end.
Proof.
  revert w. induction a as [|t a IH]; intros w.
  - simpl. by destruct (run_tasks b w) as [[rb|e] w2].
  - cbn [app]. rewrite !run_tasks_cons.
    destruct (coro_body t w) as [[r|e] w0]; [| done].
    rewrite IH.
    destruct (run_tasks a w0) as [[ra|e] w1]; [| done].
    by destruct (run_tasks b w1) as [[rb|e] w2].
Qed.

Lemma enumerate_from_keys (i : Z) (keys : list string) :
  (enumerate_from i keys).*2 = keys.
Proof.
  revert i. induction keys as [|k keys IH]; intros i; [done |].
  simpl. by rewrite IH.
Qed.

Lemma enumerate_from_app (i : Z) (a b : list string) :
  enumerate_from i (a ++ b)
  = enumerate_from i a ++ enumerate_from (i + Z.of_nat (length a)) b.
Proof.
  revert i. induction a as [|k a IH]; intros i.
  - simpl. by rewrite Z.add_0_r.
  - cbn [app enumerate_from length]. rewrite IH. do 3 f_equal. lia.
Qed.

(** The loop and the final gather together.  Batch by batch they run the
    pending tasks and those of the remaining keys in order, stop at the
    first exception, and flush every result once. *)
Lemma download_refines (items : list (Z * string)) :
  forall (tasks : list coroutine) (df : DataFrame) (s : sched) (w : world),
    exists s',
      match download_loop tr items tasks df s w with
      | (Ok (tasks', df'), s1, w1) => final_gather tasks' df' s1 w1
      | (Raise e, s1, w1) => (Raise e, s1, w1)
      end =
      match run_tasks (tasks ++ (process_postal_coro tr <$> items.*2)) w with
      | (Ok results, w') => (Ok (flush results df), s', w')
      | (Raise e, w') => (Raise e, s', w')
      end.
Proof.
  induction items as [|[i key] rest IH]; intros tasks df s w.
  - cbn [download_loop fmap list_fmap]. rewrite app_nil_r.
    destruct tasks as [|t tasks].
    + by exists s.
    + unfold final_gather, gather.
      destruct (run_tasks (t :: tasks) w) as [[results|e] w'];
        by eexists.
  - cbn [download_loop fmap list_fmap].
    change (list_fmap _ _ snd rest) with (rest.*2).
    cbn [snd].
    rewrite (cons_middle _ tasks (process_postal_coro tr <$> rest.*2)).
    rewrite (app_assoc tasks _ (process_postal_coro tr <$> rest.*2)).
    destruct ((i mod 1000 =? 0) && (0 <? i)).
    + unfold gather.
      rewrite (run_tasks_app (tasks ++ [process_postal_coro tr key])).
      destruct (run_tasks (tasks ++ [process_postal_coro tr key]) w)
        as [[completed|e] w1]; [| by eexists].
      destruct (IH [] (flush completed df)
                  (record_event
                     (Gathered
                        (coro_arg <$> tasks ++ [process_postal_coro tr key]))
                     (sem_release
                        (record_event (Created key) (sem_acquire s))))
                  w1) as [s' ->].
      exists s'. cbn [app].
      destruct (run_tasks (process_postal_coro tr <$> rest.*2) w1)
        as [[results|e] w2]; [| done].
      by rewrite flush_app.
    + apply IH.
Qed.

(** The whole run against the tasks of all keys taken in order. *)
Lemma download_keys_refines (keys : list string) (df : DataFrame)
    (s : sched) (w : world) :
  exists s',
    download_keys tr keys df s w =
      match run_tasks (process_postal_coro tr <$> keys) w with
      | (Ok results, w') => (Ok (flush results df), s', w')
      | (Raise e, w') => (Raise e, s', w')
      end.
Proof.
  destruct (download_refines (enumerate_from 0 keys) [] df s w) as [s' H].
  exists s'. unfold download_keys. rewrite H, enumerate_from_keys. done.
Qed.

(** The first exception ends the run. *)
Lemma download_keys_first_raises (key : string) (keys : list string)
    (df : DataFrame) (s : sched) (w w' : world) (e : exn) :
  process_postal tr key w = (Raise e, w') ->
  exists s', download_keys tr (key :: keys) df s w = (Raise e, s', w').
Proof.
  intros Hfirst.
  destruct (download_keys_refines (key :: keys) df s w) as [s' ->].
  exists s'. cbn [fmap list_fmap]. rewrite run_tasks_cons.
  cbn [process_postal_coro coro_body]. by rewrite Hfirst.
Qed.

(** Every result of a run of tasks comes from mapped items. *)
Lemma run_tasks_rows (keys : list string) :
  forall (w w' : world) (results : list (list row)),
    run_tasks (process_postal_coro tr <$> keys) w = (Ok results, w') ->
    Forall (fun batch => exists items, batch = record_of_item <$> items)
      results.
Proof.
  induction keys as [|key keys IH]; intros w w' results.
  - intros [= <- _]. constructor.
  - cbn [fmap list_fmap]. rewrite run_tasks_cons.
    cbn [process_postal_coro coro_body].
    destruct (process_postal tr key w) as [[batch|e] w1] eqn:Hkey; [| done].
    change (list_fmap _ _ (process_postal_coro tr) keys)
      with (process_postal_coro tr <$> keys).
    destruct (run_tasks (process_postal_coro tr <$> keys) w1)
      as [[rest|e] w2] eqn:Hrest; [| done].
    intros [= <- _]. constructor.
    + by eapply process_postal_rows.
    + by eapply IH.
Qed.

End SchedulerFacts.

Section RunFacts.

Variable tr : list string -> string -> outcome response.

Lemma length_concat_sum {A : Type} (l : list (list A)) :
  length (concat l) = sum_list (length <$> l).
Proof.
  induction l as [|x l IH]; [done |].
  cbn [concat fmap list_fmap]. rewrite length_app, IH. done.
Qed.

(** One result set per task. *)
Lemma run_tasks_length (tasks : list coroutine) :
  forall (w w' : world) (results : list (list row)),
    run_tasks tasks w = (Ok results, w') -> length results = length tasks.
Proof.
  induction tasks as [|t tasks IH]; intros w w' results.
  - by intros [= <- _].
  - rewrite run_tasks_cons.
    destruct (coro_body t w) as [[r|e] w1]; [| done].
    destruct (run_tasks tasks w1) as [[rs|e] w2] eqn:Hrest; [| done].
    intros [= <- _]. simpl. f_equal. by eapply IH.
Qed.

(** The batched run of any list of keys, next to the tasks of those keys
    run in order with nothing flushed in between. *)
Lemma download_keys_no_record_lost (keys : list string) (df : DataFrame)
    (s : sched) (w : world) :
  match run_tasks (process_postal_coro tr <$> keys) w,
        download_keys tr keys df s w with
  | (Ok results, w0), (Ok df', _, w') =>
      w' = w0
      /\ length results = length keys
      /\ rows df' = rows df ++ concat results
      /\ length (rows df')
         = (length (rows df) + sum_list (length <$> results))%nat
  | (Raise e0, w0), (Raise e, _, w') => e = e0 /\ w' = w0
  | _, _ => False
  end.
Proof.
  destruct (download_keys_refines tr keys df s w) as [s' ->].
  destruct (run_tasks (process_postal_coro tr <$> keys) w)
    as [[results|e] w0] eqn:Hrun; [| done].
  split; [done |]. split.
  { apply run_tasks_length in Hrun. by rewrite length_fmap in Hrun. }
  split; [apply flush_rows |].
  by rewrite flush_rows, length_app, length_concat_sum.
Qed.

(** A transport that finds nothing: every task returns no rows. *)
Lemma run_tasks_nothing_found (keys : list string) :
  forall w : world,
    exists results w',
      run_tasks (process_postal_coro nothing_found <$> keys) w
      = (Ok results, w')
      /\ Forall (fun batch => batch = []) results
      /\ error_log w' = error_log w.
Proof.
  induction keys as [|key keys IH]; intros w.
  - exists [], w. by repeat split.
  - destruct (IH (sent (probe_url key) w)) as (results & w' & Hrun & Hall & Hlog).
    exists ([] :: results), w'.
    cbn [fmap list_fmap]. rewrite run_tasks_cons.
    change (coro_body (process_postal_coro nothing_found key) w)
      with (Ok ([] : list row), sent (probe_url key) w).
    change (list_fmap _ _ (process_postal_coro nothing_found) keys)
      with (process_postal_coro nothing_found <$> keys).
    cbv beta iota. rewrite Hrun.
    split; [done |]. split; [by constructor | done].
Qed.

End RunFacts.

(** C4.  Whatever the transport does: when the tasks of all 820000 keys, run
    in order, raise nothing, [download_data] raises nothing either, ends in
    the same world, and its table holds the result sets of all keys one after
    the other, so its number of rows is the sum of their sizes; the flushes
    at every thousandth key and the final one lose and repeat nothing.  When
    a task raises, the run raises the same exception. *)
Theorem no_record_lost_at_flush
    (tr : list string -> string -> outcome response) (w : world) :
  match run_tasks (process_postal_coro tr <$> postal_codes) w,
        download_data tr w with
  | (Ok results, w0), (Ok df, _, w') =>
      w' = w0
      /\ length results = length postal_codes
      /\ rows df = concat results
      /\ length (rows df) = sum_list (length <$> results)
  | (Raise e0, w0), (Raise e, _, w') => e = e0 /\ w' = w0
  | _, _ => False
  end.
Proof.
  unfold download_data.
  pose proof (download_keys_no_record_lost tr postal_codes init_df
                {| sem_value := 20; events := [] |} w) as H.
  destruct (run_tasks (process_postal_coro tr <$> postal_codes) w)
    as [[results|e0] w0];
    destruct (download_keys tr postal_codes init_df
                {| sem_value := 20; events := [] |} w)
      as [[[df|e] s'] w']; done.
Qed.

(** Two keys with two rows each, gathered together at the end. *)
Example download_keys_two_keys :
  exists s w,
    download_keys two_blocks ["118411"; "118412"]
      init_df fresh_sched fresh_world
    = (Ok {| columns := columns init_df;
             rows := [record_of_item (block "1"); record_of_item (block "2");
                      record_of_item (block "1"); record_of_item (block "2")] |},
       s, w).
Proof. do 2 eexists. vm_compute. reflexivity. Qed.

(** C6, as written, fails: on a transport that finds nothing the run
    completes with the table of [__init__], whose labels are not those the
    specification names; [block_number], [latitude] and [longitude] are not
    among them. *)
Lemma spec_columns_counterexample :
  exists s w,
    download_data nothing_found fresh_world = (Ok init_df, s, w)
    /\ columns init_df <> spec_columns
    /\ ("block_number" ∉ columns init_df)
    /\ ("latitude" ∉ columns init_df)
    /\ ("longitude" ∉ columns init_df).
Proof.
  unfold download_data.
  destruct (download_keys_refines nothing_found postal_codes init_df
              {| sem_value := 20; events := [] |} fresh_world) as [s' ->].
  destruct (run_tasks_nothing_found postal_codes fresh_world)
    as (results & w' & -> & Hall & _).
  exists s', w'. rewrite flush_nothing by done.
  split; [done |]. split; [done |].
  repeat split; intros Hin; by repeat (apply elem_of_cons in Hin as [? | Hin]; [done |]);
    apply elem_of_nil in Hin.
Qed.

(** C2 fails on the code.  The first key has two pages and the connection
    drops on the second one: the exception is not a timeout, nothing in
    [process_postal] catches it, it leaves the gather and [download_data]
    with it, and no table is produced; nor is anything written to the error
    log. *)
Theorem page_error_aborts_the_run :
  exists s w,
    process_postal page_disconnects "010000" fresh_world
    = (Raise (Error "Server disconnected"), w)
    /\ download_data page_disconnects fresh_world
       = (Raise (Error "Server disconnected"), s, w)
    /\ error_log w = Writable [].
Proof.
  assert (process_postal page_disconnects "010000" fresh_world
          = (Raise (Error "Server disconnected"),
             {| requests := [probe_url "010000"; page_url "010000" 1;
                             page_url "010000" 2];
                error_log := Writable [] |})) as Hfirst by reflexivity.
  unfold download_data. rewrite postal_codes_head.
  destruct (download_keys_first_raises page_disconnects "010000"
              (Fmt.format_06d <$> range 10001 830000) init_df
              {| sem_value := 20; events := [] |} _ _ _ Hfirst) as [s' Hrun].
  eexists s', _. split; [exact Hfirst |]. split; [exact Hrun | done].
Qed.

(** ** The schedule *)

Section ScheduleFacts.

Variable tr : list string -> string -> outcome response.

Lemma admission_events_cons (key : string) (keys : list string) :
  admission_events (key :: keys)
  = [Acquire; Created key; Release] ++ admission_events keys.
Proof. reflexivity. Qed.

(** Below index 1000 nothing is gathered: coroutines pile up in [tasks],
    and the semaphore is back at its value after each of them. *)
Lemma download_loop_quiet (l : list string) :
  forall (i : Z) (rest : list (Z * string)) (tasks : list coroutine)
         (df : DataFrame) (s : sched) (w : world),
    0 <= i -> i + Z.of_nat (length l) <= 1000 ->
    download_loop tr (enumerate_from i l ++ rest) tasks df s w
    = download_loop tr rest (tasks ++ (process_postal_coro tr <$> l)) df
        {| sem_value := sem_value s;
           events := events s ++ admission_events l |} w.
Proof.
  induction l as [|key l IH]; intros i rest tasks df s w Hi Hlen.
  - cbn [enumerate_from app fmap list_fmap admission_events mbind list_bind].
    rewrite !app_nil_r. by destruct s.
  - cbn [enumerate_from app download_loop length] in *.
    assert ((i mod 1000 =? 0) && (0 <? i) = false) as ->.
    { destruct (decide (i = 0)) as [-> | Hne]; [done |].
      apply andb_false_intro1, Z.eqb_neq.
      rewrite Z.mod_small by lia. done. }
    rewrite IH by lia.
    rewrite <- (app_assoc tasks). cbn [app fmap list_fmap]. f_equal.
    unfold sem_release, record_event, sem_acquire. cbn [sem_value events].
    f_equal; [lia |]. by rewrite admission_events_cons, <- !app_assoc.
Qed.

Lemma gather_events (tasks : list coroutine) (s : sched) (w : world) :
  events (gather tasks s w).1.2
  = events s ++ [Gathered (coro_arg <$> tasks)].
Proof. unfold gather. by destruct (run_tasks tasks w). Qed.

(** Events are only ever added. *)
Lemma download_loop_events (items : list (Z * string)) :
  forall (tasks : list coroutine) (df : DataFrame) (s : sched) (w : world),
    exists more,
      events (download_loop tr items tasks df s w).1.2 = events s ++ more.
Proof.
  induction items as [|[i key] rest IH]; intros tasks df s w.
  - exists []. by rewrite app_nil_r.
  - cbn [download_loop].
    set (s1 := sem_release (record_event (Created key) (sem_acquire s))).
    assert (events s1 = events s ++ [Acquire; Created key; Release]) as Hs1
      by (unfold s1; simpl; by rewrite <- !app_assoc).
    destruct ((i mod 1000 =? 0) && (0 <? i)).
    + pose proof (gather_events (tasks ++ [process_postal_coro tr key]) s1 w)
        as Hg.
      destruct (gather (tasks ++ [process_postal_coro tr key]) s1 w)
        as [[[completed|e] s2] w2]; cbn [fst snd] in Hg.
      * destruct (IH [] (flush completed df) s2 w2) as [more ->].
        rewrite Hg, Hs1. eexists. by rewrite <- !app_assoc.
      * cbn [fst snd]. rewrite Hg, Hs1. eexists. by rewrite <- !app_assoc.
    + destruct (IH (tasks ++ [process_postal_coro tr key]) df s1 w)
        as [more ->].
      rewrite Hs1. eexists. by rewrite <- !app_assoc.
Qed.

Lemma final_gather_events (tasks : list coroutine) (df : DataFrame)
    (s : sched) (w : world) :
  exists more, events (final_gather tasks df s w).1.2 = events s ++ more.
Proof.
  destruct tasks as [|t tasks]; [exists []; by rewrite app_nil_r |].
  unfold final_gather.
  pose proof (gather_events (t :: tasks) s w) as Hg.
  destruct (gather (t :: tasks) s w) as [[[completed|e] s2] w2];
    cbn [fst snd] in *; by eexists.
Qed.

Lemma download_keys_events (items : list (Z * string))
    (tasks : list coroutine) (df : DataFrame) (s : sched) (w : world) :
  exists more,
    events
      (match download_loop tr items tasks df s w with
       | (Ok (tasks', df'), s1, w1) => final_gather tasks' df' s1 w1
       | (Raise e, s1, w1) => (Raise e, s1, w1)
       end).1.2 = events s ++ more.
Proof.
  destruct (download_loop_events items tasks df s w) as [more Hloop].
  destruct (download_loop tr items tasks df s w)
    as [[[[tasks' df']|e] s1] w1]; cbn [fst snd] in *.
  - destruct (final_gather_events tasks' df' s1 w1) as [more' ->].
    rewrite Hloop. eexists. by rewrite <- app_assoc.
  - by eexists.
Qed.

Lemma first_gather_admission (keys : list string) (held : Z)
    (evs : list event) :
  first_gather held (admission_events keys ++ evs) = first_gather held evs.
Proof.
  induction keys as [|key keys IH]; [done |].
  rewrite admission_events_cons, <- app_assoc. cbn [app first_gather].
  by rewrite Z.add_simpl_r.
Qed.

Lemma peak_in_progress_gathered (before after : list event)
    (ks : list string) :
  Z.of_nat (length ks) <= peak_in_progress (before ++ Gathered ks :: after).
Proof.
  induction before as [|ev before IH]; cbn [app peak_in_progress]; [lia |].
  destruct ev; lia.
Qed.

Lemma coro_arg_process_postal (keys : list string) :
  coro_arg <$> (process_postal_coro tr <$> keys) = keys.
Proof.
  induction keys as [|key keys IH]; [done |].
  cbn [fmap list_fmap process_postal_coro coro_arg]. by f_equal.
Qed.

(** With more than a thousand keys, the first gather is reached with all of
    the first 1001 coroutines pending and no permit held. *)
Lemma download_keys_first_gather (keys : list string) (df : DataFrame)
    (value : Z) (w : world) :
  (1000 < length keys)%nat ->
  exists more,
    events (download_keys tr keys df {| sem_value := value; events := [] |} w).1.2
    = admission_events (take 1001 keys)
        ++ Gathered (take 1001 keys) :: more.
Proof.
  intros Hlen.
  destruct (lookup_lt_is_Some_2 keys 1000 Hlen) as [key Hkey].
  pose proof (take_drop_middle keys 1000 key Hkey) as Hsplit.
  pose proof (take_S_r keys 1000 key Hkey) as Htake.
  change (S 1000) with 1001%nat in *.
  assert (length (take 1000 keys) = 1000%nat) as Hfirst
    by (rewrite length_take; lia).
  unfold download_keys.
  replace (enumerate_from 0 keys)
    with (enumerate_from 0 (take 1000 keys ++ key :: drop 1001 keys))
    by (by rewrite Hsplit).
  rewrite enumerate_from_app, Hfirst. cbn [enumerate_from].
  rewrite download_loop_quiet by lia.
  cbn [download_loop app events sem_value].
  change ((0 + Z.of_nat 1000) mod 1000 =? 0) with true.
  change (0 <? 0 + Z.of_nat 1000) with true. cbn [andb].
  set (tasks := process_postal_coro tr <$> take 1000 keys).
  set (s1 := sem_release (record_event (Created key) _)).
  assert (events (record_event
                    (Gathered (coro_arg <$> tasks ++ [process_postal_coro tr key]))
                    s1)
          = admission_events (take 1001 keys)
              ++ [Gathered (take 1001 keys)]) as Hev.
  { unfold s1, tasks. cbn [record_event sem_release sem_acquire events app].
    rewrite Htake, fmap_app, coro_arg_process_postal.
    cbn [fmap list_fmap process_postal_coro coro_arg].
    unfold admission_events. rewrite bind_app. cbn [mbind list_bind app].
    by rewrite <- !app_assoc. }
  unfold gather.
  destruct (run_tasks (tasks ++ [process_postal_coro tr key]) w)
    as [[completed|e] w1].
  - destruct (download_keys_events
                (enumerate_from (0 + Z.of_nat 1000 + 1) (drop 1001 keys)) []
                (flush completed df)
                (record_event
                   (Gathered
                      (coro_arg <$> tasks ++ [process_postal_coro tr key]))
                   s1) w1) as [more ->].
    rewrite Hev. exists more. by rewrite <- app_assoc.
  - cbn [fst snd]. rewrite Hev. exists []. done.
Qed.

End ScheduleFacts.

Section SemaphoreFacts.

Variable tr : list string -> string -> outcome response.

(** The semaphore is back at its value whenever the loop moves on, so the
    next acquire never waits. *)
Lemma download_loop_sem (items : list (Z * string)) :
  forall (tasks : list coroutine) (df : DataFrame) (s : sched) (w : world),
    sem_value (download_loop tr items tasks df s w).1.2 = sem_value s.
Proof.
  induction items as [|[i key] rest IH]; intros tasks df s w; [done |].
  cbn [download_loop].
  set (s1 := sem_release (record_event (Created key) (sem_acquire s))).
  assert (sem_value s1 = sem_value s) as Hs1 by (unfold s1; simpl; lia).
  destruct ((i mod 1000 =? 0) && (0 <? i)).
  - unfold gather.
    destruct (run_tasks (tasks ++ [process_postal_coro tr key]) w)
      as [[completed|e] w1]; [by rewrite IH | done].
  - by rewrite IH.
Qed.

End SemaphoreFacts.

(** C1 fails on the code.  For every transport, the first gather of
    [download_data] starts the operations of the first 1001 keys together,
    at a moment when no permit of the semaphore is held: each permit was
    taken and given back around the creation of the coroutine object, before
    any of its body ran.  The peak of operations in progress is above 20. *)
Theorem semaphore_does_not_bound_the_gather
    (tr : list string -> string -> outcome response) (w : world) :
  first_gather 0 (events (download_data tr w).1.2)
  = Some (take 1001 postal_codes, 0)
  /\ length (take 1001 postal_codes) = 1001%nat
  /\ 20 < peak_in_progress (events (download_data tr w).1.2).
Proof.
  assert (1000 < length postal_codes)%nat as Hlen
    by (rewrite length_postal_codes; lia).
  assert (length (take 1001 postal_codes) = 1001%nat) as Htake
    by (rewrite length_take; lia).
  unfold download_data.
  destruct (download_keys_first_gather tr postal_codes init_df 20 w Hlen)
    as [more ->].
  split; [by rewrite first_gather_admission |]. split; [done |].
  pose proof (peak_in_progress_gathered
                (admission_events (take 1001 postal_codes)) more
                (take 1001 postal_codes)) as Hpeak.
  rewrite Htake in Hpeak. lia.
Qed.

(** The schedule of a run over two keys: both permits are back before the
    gather starts anything. *)
Example download_keys_two_keys_schedule :
  (download_keys two_blocks ["118411"; "118412"] init_df fresh_sched
     fresh_world).1.2
  = {| sem_value := 20;
       events := [Acquire; Created "118411"; Release;
                  Acquire; Created "118412"; Release;
                  Gathered ["118411"; "118412"]] |}.
Proof. vm_compute. reflexivity. Qed.

(** * Further properties of the downloader *)

(** ** The retry loop *)

Section RetryFacts.

Variable tr : list string -> string -> outcome response.
Variable key : string.

(** [fetch_postal_loop_spec] read for [fetch_postal] itself. *)
Lemma fetch_postal_spec (retries : Z) (w : world) :
  exists (n : nat) (r : outcome (option SearchResponse)) (w' : world),
    fetch_postal tr key retries w = (r, w')
    /\ (n <= Z.to_nat retries)%nat
    /\ (forall i, (S i < n)%nat ->
          classify (tr (requests w ++ replicate i (probe_url key))
                      (probe_url key)) = TimedOut)
    /\ ((Z.to_nat retries = 0%nat /\ n = 0%nat /\ r = Ok None /\ w' = w)
        \/ (exists i j, n = S i
              /\ classify (tr (requests w ++ replicate i (probe_url key))
                             (probe_url key)) = Success j
              /\ r = Ok (Some j)
              /\ w' = {| requests := requests w ++ replicate n (probe_url key);
                         error_log := error_log w |})
        \/ (exists i reason, n = S i
              /\ classify (tr (requests w ++ replicate i (probe_url key))
                             (probe_url key)) = Failed reason
              /\ (r, w') = (log_error key reason;; mret None)
                             {| requests := requests w
                                             ++ replicate n (probe_url key);
                                error_log := error_log w |})
        \/ (exists i, n = S i /\ n = Z.to_nat retries
              /\ classify (tr (requests w ++ replicate i (probe_url key))
                             (probe_url key)) = TimedOut
              /\ (r, w') = (log_error key "Timeout after retries";; mret None)
                             {| requests := requests w
                                             ++ replicate n (probe_url key);
                                error_log := error_log w |})).
Proof.
  destruct (fetch_postal_loop_spec tr key retries (Z.to_nat retries) 0 w)
    as (n & r & w' & Hloop & Hn & _ & Hto & Hend).
  { destruct (decide (0 < retries)); [right | left]; lia. }
  exists n, r, w'. split; [| done].
  unfold fetch_postal, range. rewrite <- Hloop.
  destruct (decide (0 <= retries)).
  - by rewrite Z2Nat.id, Z.sub_0_r.
  - by rewrite !seqZ_nil by lia.
Qed.

End RetryFacts.

(** X1.  A budget of zero or less sends nothing, logs nothing and returns
    [None]: the key resolves as if it had no buildings. *)
Theorem fetch_postal_no_budget
    (tr : list string -> string -> outcome response) (key : string)
    (retries : Z) (w : world) :
  retries <= 0 ->
  fetch_postal tr key retries w = (Ok None, w).
Proof.
  intros Hr. unfold fetch_postal, range. by rewrite seqZ_nil by lia.
Qed.

Lemma fetch_postal_no_budget_witness :
  fetch_postal always_500 "118411" 0 fresh_world = (Ok None, fresh_world).
Proof. apply (fetch_postal_no_budget always_500 "118411" 0 fresh_world). lia. Defined.

(** X2.  When the first [k] replies are timeouts, [k] below the budget, and
    the next reply is a 200 with a payload, [fetch_postal] returns that
    payload after exactly [k + 1] requests and leaves the error log as it
    was, writable or not. *)
Theorem fetch_postal_succeeds_after_timeouts
    (tr : list string -> string -> outcome response) (key : string)
    (retries : Z) (w : world) (k : nat) (j : SearchResponse) :
  Z.of_nat k < retries ->
  (forall i, (i < k)%nat ->
     classify (tr (requests w ++ replicate i (probe_url key)) (probe_url key))
     = TimedOut) ->
  classify (tr (requests w ++ replicate k (probe_url key)) (probe_url key))
  = Success j ->
  fetch_postal tr key retries w
  = (Ok (Some j),
     {| requests := requests w ++ replicate (S k) (probe_url key);
        error_log := error_log w |}).
Proof.
  intros Hk Hto Hok.
  destruct (fetch_postal_spec tr key retries w)
    as (n & r & w' & -> & Hn & Hearlier & Hend).
  assert (n = S k) as ->.
  { destruct (decide (n = S k)) as [| Hne]; [done | exfalso].
    destruct (decide (S k < n)%nat) as [Hlt | Hge].
    - rewrite (Hearlier k Hlt) in Hok. done.
    - destruct Hend as [(Hz & _) | [(i & j' & -> & Hj & _)
        | [(i & reason & -> & Hf & _) | (i & -> & Hfull & _)]]];
        [lia | | | lia].
      + rewrite Hto in Hj by lia. done.
      + rewrite Hto in Hf by lia. done. }
  destruct Hend as [(_ & ? & _) | [(i & j' & [= <-] & Hj & -> & ->)
    | [(i & reason & [= <-] & Hf & _) | (i & [= <-] & _ & Ht & _)]]];
    [done | | |].
  - rewrite Hok in Hj. by injection Hj as ->.
  - rewrite Hok in Hf. done.
  - rewrite Hok in Ht. done.
Qed.

(** Two timeouts, then an answer, within a budget of three. *)
Lemma fetch_postal_succeeds_after_timeouts_witness :
  fetch_postal third_time_lucky "118411" 3 full_disk
  = (Ok (Some {| found := Some 0; totalNumPages := Some 0;
                 results := Some [] |}),
     {| requests := replicate 3 (probe_url "118411");
        error_log := error_log full_disk |}).
Proof.
  apply (fetch_postal_succeeds_after_timeouts third_time_lucky "118411" 3
           full_disk 2).
  - lia.
  - intros [|[|i]] Hi; [reflexivity | reflexivity | lia].
  - reflexivity.
Defined.

(** X3.  With a positive budget and a writable log, a first reply that is
    neither a payload nor a timeout (a status other than 200, or an exception
    other than a timeout) ends the probe at once: one request, one line with
    the reason, the status as "HTTP <status>" or the text of the exception,
    and [None]. *)
Theorem fetch_postal_fails_at_once
    (tr : list string -> string -> outcome response) (key : string)
    (retries : Z) (w : world) (written : list string) (reason : string) :
  0 < retries ->
  error_log w = Writable written ->
  classify (tr (requests w) (probe_url key)) = Failed reason ->
  fetch_postal tr key retries w
  = (Ok None,
     {| requests := requests w ++ [probe_url key];
        error_log := Writable (written ++ [entry key reason]) |}).
Proof.
  intros Hr Hw Hfail.
  assert (classify (tr (requests w ++ replicate 0 (probe_url key))
                      (probe_url key)) = Failed reason) as Hzero
    by (simpl; by rewrite app_nil_r).
  destruct (fetch_postal_spec tr key retries w)
    as (n & r & w' & -> & Hn & Hearlier & Hend).
  assert (n = 1%nat) as ->.
  { destruct n as [|[|n]]; [| done |].
    - destruct Hend as [(? & _) | [(i & ? & ? & _)
        | [(i & ? & ? & _) | (i & ? & _)]]]; [lia | done | done | done].
    - rewrite (Hearlier 0%nat) in Hzero by lia. done. }
  destruct Hend as [(_ & ? & _) | [(i & j & [= <-] & Hj & _)
    | [(i & reason' & [= <-] & Hf & Hlog) | (i & [= <-] & _ & Ht & _)]]];
    [done | | |].
  - rewrite Hzero in Hj. done.
  - rewrite Hzero in Hf. injection Hf as <-.
    rewrite Hlog. unfold mbind, M_bind.
    rewrite (log_error_writable _ _ _ written) by done.
    unfold logged. simpl. by rewrite Hw.
  - rewrite Hzero in Ht. done.
Qed.

(** Status 500 on the first request, budget of three. *)
Lemma fetch_postal_fails_at_once_witness :
  fetch_postal always_500 "118411" 3 fresh_world
  = (Ok None,
     {| requests := [probe_url "118411"];
        error_log := Writable [entry "118411" "HTTP 500"] |}).
Proof.
  apply (fetch_postal_fails_at_once always_500 "118411" 3 fresh_world []
           "HTTP 500"); [lia | reflexivity | reflexivity].
Defined.

(** X4.  With a positive budget and an error log that cannot be opened,
    [fetch_postal] never returns [None]: it returns a payload, or the error
    of the log is raised to its caller; either way only requests were
    added to the world. *)
Theorem fetch_postal_unwritable_log
    (tr : list string -> string -> outcome response) (key : string)
    (retries : Z) (w : world) (err : string) :
  0 < retries ->
  error_log w = Unwritable err ->
  exists (n : nat) (r : outcome (option SearchResponse)),
    fetch_postal tr key retries w
    = (r, {| requests := requests w ++ replicate n (probe_url key);
             error_log := Unwritable err |})
    /\ ((exists j, r = Ok (Some j)) \/ r = Raise (Error err)).
Proof.
  intros Hr Hw.
  destruct (fetch_postal_spec tr key retries w)
    as (n & r & w' & -> & Hn & _ & Hend).
  assert (forall reason (x : outcome (option SearchResponse)) x',
            (x, x') = (log_error key reason;; mret None)
                        {| requests := requests w ++ replicate n (probe_url key);
                           error_log := error_log w |} ->
            x = Raise (Error err)
            /\ x' = {| requests := requests w ++ replicate n (probe_url key);
                       error_log := Unwritable err |}) as Hraise.
  { intros reason x x'. unfold mbind, M_bind.
    rewrite (log_error_unwritable _ _ err) by done.
    rewrite Hw. by intros [= -> ->]. }
  exists n.
  destruct Hend as [(Hz & _) | [(i & j & _ & _ & -> & ->)
    | [(i & reason & _ & _ & Hlog) | (i & _ & _ & _ & Hlog)]]].
  - lia.
  - exists (Ok (Some j)). rewrite Hw. split; [done | left; by exists j].
  - destruct (Hraise _ _ _ Hlog) as [-> ->]. eexists. split; [done | by right].
  - destruct (Hraise _ _ _ Hlog) as [-> ->]. eexists. split; [done | by right].
Qed.

(** Status 500 with the log on a full disk: the error of the log comes
    out. *)
Lemma fetch_postal_unwritable_log_witness :
  exists (n : nat) (r : outcome (option SearchResponse)),
    fetch_postal always_500 "118411" 3 full_disk
    = (r, {| requests := replicate n (probe_url "118411");
             error_log := Unwritable "[Errno 28] No space left on device" |})
    /\ ((exists j, r = Ok (Some j))
        \/ r = Raise (Error "[Errno 28] No space left on device")).
Proof.
  apply (fetch_postal_unwritable_log always_500 "118411" 3 full_disk
           "[Errno 28] No space left on device"); [lia | reflexivity].
Defined.

(** ** What a task does to the world *)

Section ShapeFacts.

Variable tr : list string -> string -> outcome response.

Lemma appended_entries_refl (keys : list string) (w w' : world) :
  error_log w' = error_log w -> appended_entries keys w w'.
Proof.
  intros Hlog. unfold appended_entries.
  destruct (error_log w) as [written | err | written err]; [| done | done].
  exists []. by rewrite app_nil_r.
Qed.

Lemma appended_entries_trans (keys1 keys2 keys : list string)
    (w w1 w2 : world) :
  keys1 ⊆ keys -> keys2 ⊆ keys ->
  appended_entries keys1 w w1 -> appended_entries keys2 w1 w2 ->
  appended_entries keys w w2.
Proof.
  unfold appended_entries. intros Hsub1 Hsub2 H1 H2.
  destruct (error_log w) as [written | err | written err];
    [| by rewrite H1 in H2 | by rewrite H1 in H2].
  - destruct H1 as (lines1 & Hlog1 & Hall1). rewrite Hlog1 in H2.
    destruct H2 as (lines2 & Hlog2 & Hall2).
    exists (lines1 ++ lines2). split; [by rewrite app_assoc |].
    apply Forall_app. split.
    + eapply Forall_impl; [exact Hall1 |].
      intros line (key & reason & Hin & ->). exists key, reason. auto.
    + eapply Forall_impl; [exact Hall2 |].
      intros line (key & reason & Hin & ->). exists key, reason. auto.
Qed.

(** A call of [log_error] followed by a return: no request, never a timeout,
    at most one entry for the key. *)
Lemma log_then_ret_shape {A : Type} (key reason : string) (a : A) (w : world) :
  exists (r : outcome A) (w' : world),
    (log_error key reason;; mret a) w = (r, w')
    /\ requests w' = requests w
    /\ r <> Raise TimeoutError
    /\ (forall e, r = Raise e ->
          exists err, write_error (error_log w) = Some err /\ e = Error err)
    /\ appended_entries [key] w w'.
Proof.
  unfold mbind, M_bind.
  destruct (log_error_cases key reason w)
    as [(written & Hw & ->) | (err & Hw & ->)].
  - exists (Ok a), (logged (entry key reason) w).
    split; [done |]. split; [done |]. split; [done |]. split; [done |].
    unfold appended_entries, logged. rewrite Hw. simpl.
    exists [entry key reason]. split; [done |].
    constructor; [| constructor]. exists key, reason. split; [| done].
    by apply list_elem_of_singleton.
  - exists (Raise (Error err)), w.
    split; [done |]. split; [done |]. split; [done |].
    split; [intros e [= <-]; by exists err | by apply appended_entries_refl].
Qed.

Lemma fetch_postal_shape (key : string) (retries : Z) (w : world) :
  exists (r : outcome (option SearchResponse)) (w' : world),
    fetch_postal tr key retries w = (r, w')
    /\ r <> Raise TimeoutError
    /\ appended_entries [key] w w'.
Proof.
  destruct (fetch_postal_spec tr key retries w)
    as (n & r & w' & Hrun & _ & _ & Hend).
  exists r, w'. split; [done |].
  destruct Hend as [(_ & _ & -> & ->) | [(i & j & _ & _ & -> & ->)
    | [(i & reason & _ & _ & Hlog) | (i & _ & _ & _ & Hlog)]]].
  - split; [done | by apply appended_entries_refl].
  - split; [done | by apply appended_entries_refl].
  - destruct (log_then_ret_shape key reason (@None SearchResponse)
                {| requests := requests w ++ replicate n (probe_url key);
                   error_log := error_log w |})
      as (r1 & w1 & Heq & _ & Hne & _ & Happ).
    rewrite Heq in Hlog. injection Hlog as -> ->. done.
  - destruct (log_then_ret_shape key "Timeout after retries"
                (@None SearchResponse)
                {| requests := requests w ++ replicate n (probe_url key);
                   error_log := error_log w |})
      as (r1 & w1 & Heq & _ & Hne & _ & Happ).
    rewrite Heq in Hlog. injection Hlog as -> ->. done.
Qed.

Lemma fetch_page_shape (key : string) (page : Z) (records : list row)
    (w : world) :
  exists (r : outcome (list row)) (w' : world),
    fetch_page tr key page records w = (r, w')
    /\ requests w' = requests w ++ [page_url key page]
    /\ r <> Raise TimeoutError
    /\ appended_entries [key] w w'.
Proof.
  rewrite fetch_page_reply. cbv zeta.
  destruct (log_then_ret_shape key ("Page " +:+ Fmt.str page +:+ " timeout")
              records (sent (page_url key page) w))
    as (r1 & w1 & Heq & Hreq & Hne & _ & Happ).
  assert (forall r, r <> Raise TimeoutError ->
            exists (r' : outcome (list row)) (w' : world),
              (r, sent (page_url key page) w) = (r', w')
              /\ requests w' = requests w ++ [page_url key page]
              /\ r' <> Raise TimeoutError
              /\ appended_entries [key] w w') as Hplain.
  { intros r Hr. exists r, (sent (page_url key page) w).
    split; [done |]. split; [done |]. split; [done |].
    by apply appended_entries_refl. }
  assert (exists (r' : outcome (list row)) (w' : world),
            (log_error key ("Page " +:+ Fmt.str page +:+ " timeout");;
             mret records) (sent (page_url key page) w) = (r', w')
            /\ requests w' = requests w ++ [page_url key page]
            /\ r' <> Raise TimeoutError
            /\ appended_entries [key] w w') as Htimeout.
  { exists r1, w1. split; [done |]. split; [by rewrite Hreq |].
    split; [done |]. exact Happ. }
  destruct (tr (requests w) (page_url key page)) as [r | [|msg]];
    [| done | by apply Hplain].
  destruct (status r =? 200); [| by apply Hplain].
  destruct (json r) as [data | [|msg]]; [by apply Hplain | done | by apply Hplain].
Qed.

(** The page loop: one request per page in the order of the list, up to
    the page that raised if one did. *)
Lemma page_loop_shape (key : string) (pages : list Z) :
  forall (records : list row) (w : world),
    exists (r : outcome (list row)) (w' : world) (k : nat),
      page_loop tr key pages records w = (r, w')
      /\ (k <= length pages)%nat
      /\ requests w' = requests w ++ (page_url key <$> take k pages)
      /\ ((exists records', r = Ok records') -> k = length pages)
      /\ r <> Raise TimeoutError
      /\ appended_entries [key] w w'.
Proof.
  induction pages as [|page rest IH]; intros records w.
  - exists (Ok records), w, 0%nat. simpl. rewrite app_nil_r.
    repeat split; [done | done | by apply appended_entries_refl].
  - cbn [page_loop]. unfold mbind, M_bind.
    destruct (fetch_page_shape key page records w)
      as (r1 & w1 & -> & Hreq1 & Hne1 & Happ1).
    destruct r1 as [records1 | e].
    + destruct (IH records1 w1) as (r & w' & k & -> & Hk & Hreq & Hall & Hne & Happ).
      exists r, w', (S k). split; [done |]. split; [simpl; lia |].
      split; [rewrite Hreq, Hreq1; simpl; by rewrite <- app_assoc |].
      split; [intros Hok; simpl; f_equal; by apply Hall |].
      split; [done |].
      by apply (appended_entries_trans [key] [key] [key] w w1 w').
    + exists (Raise e), w1, 1%nat. split; [done |]. split; [simpl; lia |].
      split; [by simpl |].
      split; [by intros [? ?] |]. split; done.
Qed.

Lemma process_postal_shape (key : string) (w : world) :
  exists (r : outcome (list row)) (w' : world),
    process_postal tr key w = (r, w')
    /\ r <> Raise TimeoutError
    /\ appended_entries [key] w w'.
Proof.
  unfold process_postal, mbind, M_bind.
  destruct (fetch_postal_shape key 3 w) as (r0 & w0 & -> & Hne0 & Happ0).
  destruct r0 as [[j|] | e].
  2: { exists (Ok []), w0. by repeat split. }
  2: { exists (Raise e), w0. split; [done |]. split; [| done].
       intros [= ->]. by apply Hne0. }
  destruct (0 <? default 0 (found j)).
  2: { exists (Ok []), w0. by repeat split. }
  destruct (totalNumPages j) as [n|].
  2: { exists (Raise (Error "'totalNumPages'")), w0. by repeat split. }
  destruct (page_loop_shape key (range 1 (n + 1)) [] w0)
    as (r & w' & k & -> & _ & _ & _ & Hne & Happ).
  exists r, w'. split; [done |]. split; [done |].
  by apply (appended_entries_trans [key] [key] [key] w w0 w').
Qed.

Lemma run_tasks_shape (keys : list string) :
  forall w : world,
    exists (r : outcome (list (list row))) (w' : world),
      run_tasks (process_postal_coro tr <$> keys) w = (r, w')
      /\ r <> Raise TimeoutError
      /\ appended_entries keys w w'.
Proof.
  induction keys as [|key keys IH]; intros w.
  - exists (Ok []), w. split; [done |]. split; [done |].
    by apply appended_entries_refl.
  - cbn [fmap list_fmap]. rewrite run_tasks_cons.
    cbn [process_postal_coro coro_body].
    change (list_fmap _ _ (process_postal_coro tr) keys)
      with (process_postal_coro tr <$> keys).
    destruct (process_postal_shape key w) as (r1 & w1 & -> & Hne1 & Happ1).
    assert ([key] ⊆ key :: keys) as Hsub1
      by (intros x ->%list_elem_of_singleton; by left).
    assert (keys ⊆ key :: keys) as Hsub2 by (intros x Hx; by right).
    destruct r1 as [batch | e].
    + destruct (IH w1) as (r & w' & -> & Hne & Happ).
      assert (appended_entries (key :: keys) w w') as Hall
        by (by apply (appended_entries_trans [key] keys _ w w1 w')).
      destruct r as [rest | e]; by eexists _, _.
    + exists (Raise e), w1. split; [done |].
      split; [intros [= ->]; by apply Hne1 |].
      apply (appended_entries_trans [key] keys _ w w1 w1); [done | done | done |].
      by apply appended_entries_refl.
Qed.

End ShapeFacts.

(** X5.  No timeout ever leaves a task or the run: whatever the transport
    and the state of the error log, [process_postal] does not raise
    [TimeoutError], and neither does [download_keys]. *)
Theorem no_timeout_escapes
    (tr : list string -> string -> outcome response) :
  (forall (key : string) (w : world),
     (process_postal tr key w).1 <> Raise TimeoutError)
  /\ (forall (keys : list string) (df : DataFrame) (s : sched) (w : world),
        (download_keys tr keys df s w).1.1 <> Raise TimeoutError).
Proof.
  split.
  - intros key w.
    by destruct (process_postal_shape tr key w) as (r & w' & -> & Hne & _).
  - intros keys df s w.
    destruct (download_keys_refines tr keys df s w) as [s' ->].
    destruct (run_tasks_shape tr keys w) as (r & w' & -> & Hne & _).
    destruct r as [results | e]; [done |].
    simpl. intros [= ->]. by apply Hne.
Qed.

(** X6.  When the probe's payload gives a page count of zero or less, no
    page is requested and the key resolves with no record and no error,
    whatever [found] and [results] say. *)
Theorem no_pages_no_records
    (tr : list string -> string -> outcome response) (key : string)
    (w w1 : world) (j : SearchResponse) (n : Z) :
  fetch_postal tr key 3 w = (Ok (Some j), w1) ->
  totalNumPages j = Some n ->
  n <= 0 ->
  process_postal tr key w = (Ok [], w1).
Proof.
  intros Hprobe Hpages Hn.
  unfold process_postal. rewrite (bind_ok _ _ _ _ _ Hprobe), Hpages.
  destruct (0 <? default 0 (found j)); [| done].
  unfold range. by rewrite seqZ_nil by lia.
Qed.

(** Five buildings announced, one carried, no page. *)
Lemma no_pages_no_records_witness :
  process_postal found_without_pages "118411" fresh_world
  = (Ok [], sent (probe_url "118411") fresh_world).
Proof.
  apply (no_pages_no_records found_without_pages "118411" fresh_world
           (sent (probe_url "118411") fresh_world)
           {| found := Some 5; totalNumPages := Some 0;
              results := Some [block "1"] |} 0);
    [reflexivity | reflexivity | lia].
Defined.

(** X7.  When the probe's payload has a positive [found] and no
    [totalNumPages], the lookup of the missing key raises, nothing catches
    it, and [process_postal] ends with that error: no page is requested and
    nothing is logged. *)
Theorem missing_page_count_raises
    (tr : list string -> string -> outcome response) (key : string)
    (w w1 : world) (j : SearchResponse) :
  fetch_postal tr key 3 w = (Ok (Some j), w1) ->
  0 < default 0 (found j) ->
  totalNumPages j = None ->
  process_postal tr key w = (Raise (Error "'totalNumPages'"), w1)
  /\ error_log w1 = error_log w.
Proof.
  intros Hprobe Hfound Hpages. split; [| by eapply fetch_postal_some].
  unfold process_postal. rewrite (bind_ok _ _ _ _ _ Hprobe), Hpages.
  by rewrite (proj2 (Z.ltb_lt _ _) Hfound).
Qed.

Lemma missing_page_count_raises_witness :
  process_postal found_without_page_count "118411" fresh_world
  = (Raise (Error "'totalNumPages'"), sent (probe_url "118411") fresh_world)
  /\ error_log (sent (probe_url "118411") fresh_world) = Writable [].
Proof.
  apply (missing_page_count_raises found_without_page_count "118411"
           fresh_world (sent (probe_url "118411") fresh_world)
           {| found := Some 1; totalNumPages := None; results := None |});
    [reflexivity | simpl; lia | reflexivity].
Defined.

(** X9.  A run only appends to the error log, and every line it appends is
    an entry "Error with postal code <key>: <reason>" for a key of the run; a
    log that cannot be written is left as it is. *)
Theorem error_log_only_grows
    (tr : list string -> string -> outcome response) (keys : list string)
    (df : DataFrame) (s : sched) (w : world) :
  match error_log w with
  | Writable written =>
      exists lines,
        error_log (download_keys tr keys df s w).2 = Writable (written ++ lines)
        /\ Forall (fun line => exists key reason,
                                key ∈ keys /\ line = entry key reason) lines
  | Unwritable err =>
      error_log (download_keys tr keys df s w).2 = Unwritable err
  | Unflushable written err =>
      error_log (download_keys tr keys df s w).2 = Unflushable written err
  end.
Proof.
  destruct (download_keys_refines tr keys df s w) as [s' ->].
  destruct (run_tasks_shape tr keys w) as (r & w' & -> & _ & Happ).
  by destruct r as [results | e].
Qed.

(** X10.  A row depends on the raw item only through the six fields read:
    two items that agree on them give the same row, so any other field of
    the payload never reaches the table. *)
Theorem record_of_item_reads_six_fields (item item' : gmap string string) :
  (forall field, field ∈ raw_fields -> item !! field = item' !! field) ->
  record_of_item item = record_of_item item'.
Proof.
  intros Hsame. unfold record_of_item.
  rewrite !Hsame; [done | ..]; unfold raw_fields;
    repeat (first [apply list_elem_of_here | apply list_elem_of_further]).
Qed.

Lemma record_of_item_reads_six_fields_witness :
  record_of_item (<["SEARCHVAL" := "RAFFLES PLACE"]> (block "1"))
  = record_of_item (block "1").
Proof.
  apply record_of_item_reads_six_fields.
  intros field Hfield. apply lookup_insert_ne.
  intros <-. unfold raw_fields in Hfield.
  repeat (apply elem_of_cons in Hfield as [Heq | Hfield]; [done |]).
  by apply elem_of_nil in Hfield.
Defined.

(** X11.  When every page of the list answers 200 with a payload, the loop
    returns the records it was given followed by the mapped items of the
    pages, page after page and item after item; a payload without [results]
    adds nothing; the log is untouched. *)
Theorem page_loop_all_pages
    (tr : list string -> string -> outcome response) (key : string)
    (payload : Z -> SearchResponse) (pages : list Z) (records : list row)
    (w : world) :
  (forall page h, page ∈ pages ->
     tr h (page_url key page) = Ok {| status := 200; json := Ok (payload page) |}) ->
  page_loop tr key pages records w
  = (Ok (records
           ++ concat ((fun page =>
                         record_of_item <$> default [] (results (payload page)))
                        <$> pages)),
     {| requests := requests w ++ (page_url key <$> pages);
        error_log := error_log w |}).
Proof.
  revert records w. induction pages as [|page rest IH]; intros records w Hall.
  - simpl. rewrite !app_nil_r. by destruct w.
  - assert (fetch_page tr key page records w
            = (Ok (records
                     ++ (record_of_item <$> default [] (results (payload page)))),
               sent (page_url key page) w)) as Hpage
      by (rewrite fetch_page_reply, Hall by left; reflexivity).
    cbn [page_loop]. rewrite (bind_ok _ _ _ _ _ Hpage).
    rewrite IH by (intros p h Hp; apply Hall; by right).
    cbn [fmap list_fmap concat sent requests error_log].
    by rewrite <- !app_assoc.
Qed.

(** Two pages with one item each. *)
Lemma page_loop_all_pages_witness :
  page_loop two_pages "118411" [1; 2] [] fresh_world
  = (Ok [record_of_item (block "1"); record_of_item (block "2")],
     {| requests := [page_url "118411" 1; page_url "118411" 2];
        error_log := Writable [] |}).
Proof.
  apply (page_loop_all_pages two_pages "118411" one_block_per_page [1; 2] []
           fresh_world).
  intros page h Hpage.
  repeat (apply elem_of_cons in Hpage as [-> | Hpage]; [reflexivity |]).
  by apply elem_of_nil in Hpage.
Defined.

(** ** Batches *)

Section BatchFacts.

Variable tr : list string -> string -> outcome response.

Lemma gathers_admission_step (key : string) (evs : list event) :
  gathers 0 ([Acquire; Created key; Release] ++ evs) = gathers 0 evs.
Proof. reflexivity. Qed.

Lemma created_keys_admission_step (key : string) (evs : list event) :
  created_keys ([Acquire; Created key; Release] ++ evs)
  = key :: created_keys evs.
Proof. reflexivity. Qed.

Lemma permits_held_admission_step (key : string) (evs : list event) :
  permits_held ([Acquire; Created key; Release] ++ evs) = permits_held evs.
Proof. cbn [app permits_held]. lia. Qed.

(** The loop from index [i] on, with [t] coroutines pending: [t] is 0 at
    the start, and afterwards at most the distance from the last flush.
    Every gather is reached with no permit held and at most 1001 coroutines;
    when the loop returns, every key got its coroutine, and the gathered ones
    followed by the pending ones are the pending ones of the start followed
    by the keys. *)
Lemma download_loop_batches (keys : list string) :
  forall (i : Z) (tasks : list coroutine) (df : DataFrame) (s : sched)
         (w : world),
    0 <= i ->
    (i = 0 /\ tasks = [])
    \/ (0 < i /\ Z.of_nat (length tasks)
                 <= (i - 1) mod 1000 + (if i <=? 1000 then 1 else 0)) ->
    exists more,
      events (download_loop tr (enumerate_from i keys) tasks df s w).1.2
      = events s ++ more
      /\ permits_held more = 0
      /\ Forall (fun batch : list string * Z =>
                   batch.2 = 0 /\ (length batch.1 <= 1001)%nat)
           (gathers 0 more)
      /\ (forall tasks' df',
            (download_loop tr (enumerate_from i keys) tasks df s w).1.1
            = Ok (tasks', df') ->
            Z.of_nat (length tasks') <= 1000
            /\ created_keys more = keys
            /\ concat ((gathers 0 more).*1) ++ (coro_arg <$> tasks')
               = (coro_arg <$> tasks) ++ keys).
Proof.
  induction keys as [|key keys IH]; intros i tasks df s w Hi Hpending.
  - exists []. rewrite app_nil_r. split; [done |]. split; [done |].
    split; [constructor |].
    intros tasks' df' [= <- <-]. rewrite app_nil_r.
    split; [| done].
    destruct Hpending as [[_ ->] | [Hpos Hlen]]; [simpl; lia |].
    pose proof (Z.mod_pos_bound (i - 1) 1000 ltac:(lia)).
    destruct (i <=? 1000); lia.
  - cbn [enumerate_from download_loop].
    set (s1 := sem_release (record_event (Created key) (sem_acquire s))).
    assert (events s1 = events s ++ [Acquire; Created key; Release]) as Hs1
      by (unfold s1; simpl; by rewrite <- !app_assoc).
    assert (Z.of_nat (length (tasks ++ [process_postal_coro tr key])) <= 1001)
      as Hbatch.
    { rewrite length_app. simpl.
      destruct Hpending as [[_ ->] | [Hpos Hlen]]; [simpl; lia |].
      pose proof (Z.mod_pos_bound (i - 1) 1000 ltac:(lia)).
      destruct (i <=? 1000); lia. }
    destruct ((i mod 1000 =? 0) && (0 <? i)) eqn:Hflush.
    + apply andb_true_iff in Hflush as [Hmod%Z.eqb_eq Hpos%Z.ltb_lt].
      unfold gather.
      destruct (run_tasks (tasks ++ [process_postal_coro tr key]) w)
        as [[completed|e] w1].
      * destruct (IH (i + 1) [] (flush completed df)
                    (record_event
                       (Gathered
                          (coro_arg <$> tasks ++ [process_postal_coro tr key]))
                       s1) w1) as (more & -> & Hheld & Hall & Hok);
          [lia | right; split; [lia |] |].
        { pose proof (Z.mod_pos_bound (i + 1 - 1) 1000 ltac:(lia)).
          simpl. destruct (i + 1 <=? 1000); lia. }
        exists ([Acquire; Created key; Release]
                  ++ Gathered (coro_arg <$> tasks ++ [process_postal_coro tr key])
                  :: more).
        split.
        { cbn [record_event events]. rewrite Hs1. by rewrite <- !app_assoc. }
        split; [by rewrite permits_held_admission_step |].
        rewrite gathers_admission_step, created_keys_admission_step.
        cbn [gathers created_keys].
        split.
        { constructor; [| done]. split; [done |].
          cbn [fst]. rewrite length_fmap. lia. }
        intros tasks' df' Hres. destruct (Hok tasks' df' Hres) as (Hlen & -> & Hcat).
        split; [done |]. split; [done |].
        cbn [fmap list_fmap concat fst] in *.
        rewrite <- app_assoc, Hcat. cbn [app].
        rewrite fmap_app. cbn [fmap list_fmap process_postal_coro coro_arg].
        by rewrite <- app_assoc.
      * exists ([Acquire; Created key; Release]
                  ++ [Gathered (coro_arg <$> tasks ++ [process_postal_coro tr key])]).
        split.
        { cbn [fst snd record_event events]. rewrite Hs1.
          by rewrite <- !app_assoc. }
        split; [done |].
        split; [| done].
        rewrite gathers_admission_step. cbn [gathers].
        constructor; [| constructor]. split; [done |].
        cbn [fst]. rewrite length_fmap. lia.
    + destruct (IH (i + 1) (tasks ++ [process_postal_coro tr key]) df s1 w)
        as (more & -> & Hheld & Hall & Hok); [lia | right; split; [lia |] |].
      { rewrite length_app. simpl.
        apply andb_false_iff in Hflush as [Hmod%Z.eqb_neq | Hpos%Z.ltb_ge].
        - destruct Hpending as [[-> _] | [Hpos Hlen]]; [done |].
          replace (i + 1 - 1) with i by lia.
          assert (i mod 1000 = (i - 1) mod 1000 + 1) as ->.
          { clear -Hmod Hpos. Z.div_mod_to_equations. lia. }
          assert (i <> 1000) by (intros ->; by apply Hmod).
          destruct (i <=? 1000) eqn:H1; destruct (i + 1 <=? 1000) eqn:H2; lia.
        - destruct Hpending as [[-> ->] | [Hpos' _]]; [done | lia]. }
      exists ([Acquire; Created key; Release] ++ more).
      split; [rewrite Hs1; by rewrite <- !app_assoc |].
      split; [by rewrite permits_held_admission_step |].
      rewrite gathers_admission_step, created_keys_admission_step.
      split; [done |].
      intros tasks' df' Hres. destruct (Hok tasks' df' Hres) as (Hlen & -> & Hcat).
      split; [done |]. split; [done |].
      rewrite Hcat, fmap_app. cbn [fmap list_fmap process_postal_coro coro_arg].
      by rewrite <- app_assoc.
Qed.

End BatchFacts.

Section GatherFacts.

Variable tr : list string -> string -> outcome response.

Lemma permits_held_app (a b : list event) :
  permits_held (a ++ b) = permits_held a + permits_held b.
Proof.
  induction a as [|ev a IH]; [done |].
  destruct ev; cbn [app permits_held]; lia.
Qed.

Lemma gathers_app (a b : list event) :
  forall held : Z,
    gathers held (a ++ b)
    = gathers held a ++ gathers (held + permits_held a) b.
Proof.
  induction a as [|ev a IH]; intros held.
  - simpl. by rewrite Z.add_0_r.
  - destruct ev; cbn [app gathers permits_held]; rewrite IH;
      [f_equal; f_equal; lia | f_equal; f_equal; lia | done | done].
Qed.

(** The whole run, from a fresh semaphore: what [download_loop_batches] says
    of the loop, with the final gather added. *)
Lemma download_keys_batches (keys : list string) (df : DataFrame) (value : Z)
    (w : world) :
  exists evs,
    events (download_keys tr keys df {| sem_value := value; events := [] |} w).1.2
    = evs
    /\ permits_held evs = 0
    /\ Forall (fun batch : list string * Z =>
                 batch.2 = 0 /\ (length batch.1 <= 1001)%nat)
         (gathers 0 evs)
    /\ (forall df',
          (download_keys tr keys df {| sem_value := value; events := [] |} w).1.1
          = Ok df' ->
          created_keys evs = keys /\ gathered_keys evs = keys).
Proof.
  unfold download_keys.
  destruct (download_loop_batches tr keys 0 [] df
              {| sem_value := value; events := [] |} w)
    as (more & Hev & Hheld & Hall & Hok); [lia | by left |].
  destruct (download_loop tr (enumerate_from 0 keys) [] df
              {| sem_value := value; events := [] |} w)
    as [[[[tasks' df']|e] s1] w1]; cbn [fst snd events app] in *.
  - destruct (Hok tasks' df' eq_refl) as (Hlen & Hcreated & Hcat).
    destruct tasks' as [|t tasks'].
    + exists more. cbn [final_gather fst snd].
      split; [done |]. split; [done |]. split; [done |].
      intros _ _. split; [done |].
      unfold gathered_keys. cbn [fmap list_fmap] in Hcat.
      by rewrite app_nil_r in Hcat.
    + exists (more ++ [Gathered (coro_arg <$> t :: tasks')]).
      assert (gathers 0 (more ++ [Gathered (coro_arg <$> t :: tasks')])
              = gathers 0 more ++ [(coro_arg <$> t :: tasks', 0)]) as Hg
        by (rewrite gathers_app, Hheld; done).
      split.
      { unfold final_gather, gather.
        destruct (run_tasks (t :: tasks') w1) as [[completed|e] w2];
          cbn [fst snd record_event events]; by rewrite Hev. }
      split; [rewrite permits_held_app, Hheld; done |].
      split.
      { rewrite Hg. apply Forall_app. split; [done |].
        constructor; [| constructor]. split; [done |].
        cbn [fst]. rewrite length_fmap. lia. }
      intros _ _. split.
      * rewrite <- Hcreated. clear.
        induction more as [|ev more IH]; [done |].
        destruct ev; cbn [app created_keys]; by rewrite ?IH.
      * unfold gathered_keys. rewrite Hg, fmap_app, concat_app.
        cbn [fmap list_fmap concat fst]. by rewrite app_nil_r.
  - exists more. split; [done |]. split; [done |]. split; [done |]. done.
Qed.

End GatherFacts.

(** X12.  In a run that completes, every key has its coroutine created
    exactly once and handed to a gather exactly once, both in the order of
    the keys: no key is skipped or run twice by the batching. *)
Theorem every_key_gathered_once
    (tr : list string -> string -> outcome response) (keys : list string)
    (df df' : DataFrame) (value : Z) (w : world) :
  (download_keys tr keys df {| sem_value := value; events := [] |} w).1.1
  = Ok df' ->
  created_keys
    (events (download_keys tr keys df
               {| sem_value := value; events := [] |} w).1.2) = keys
  /\ gathered_keys
       (events (download_keys tr keys df
                  {| sem_value := value; events := [] |} w).1.2) = keys.
Proof.
  intros Hok.
  destruct (download_keys_batches tr keys df value w)
    as (evs & -> & _ & _ & Hkeys).
  by apply (Hkeys df').
Qed.

Lemma every_key_gathered_once_witness :
  created_keys
    (events (download_keys two_blocks ["118411"; "118412"] init_df
               fresh_sched fresh_world).1.2) = ["118411"; "118412"]
  /\ gathered_keys
       (events (download_keys two_blocks ["118411"; "118412"] init_df
                  fresh_sched fresh_world).1.2) = ["118411"; "118412"].
Proof.
  eapply (every_key_gathered_once two_blocks ["118411"; "118412"] init_df _ 20
            fresh_world).
  vm_compute. reflexivity.
Defined.

(** X13.  In every run, completed or not, each gather starts at most 1001
    coroutines and is reached with no permit of the semaphore held, and at
    the end every permit taken has been given back. *)
Theorem gathers_are_bounded_and_unguarded
    (tr : list string -> string -> outcome response) (keys : list string)
    (df : DataFrame) (value : Z) (w : world) :
  Forall (fun batch : list string * Z =>
            batch.2 = 0 /\ (length batch.1 <= 1001)%nat)
    (gathers 0
       (events (download_keys tr keys df
                  {| sem_value := value; events := [] |} w).1.2))
  /\ permits_held
       (events (download_keys tr keys df
                  {| sem_value := value; events := [] |} w).1.2) = 0.
Proof.
  destruct (download_keys_batches tr keys df value w)
    as (evs & -> & Hheld & Hall & _).
  done.
Qed.

(** X14.  With at most 1000 keys nothing is gathered before the end: the
    schedule is the creation of all coroutines followed by one gather of all
    of them, or by nothing when there is no key. *)
Theorem short_run_has_one_gather
    (tr : list string -> string -> outcome response) (keys : list string)
    (df : DataFrame) (value : Z) (w : world) :
  (length keys <= 1000)%nat ->
  events (download_keys tr keys df {| sem_value := value; events := [] |} w).1.2
  = admission_events keys
      ++ match keys with
         | [] => []
         | _ :: _ => [Gathered keys]
         end.
Proof.
  intros Hlen. unfold download_keys.
  rewrite <- (app_nil_r (enumerate_from 0 keys)).
  rewrite download_loop_quiet by lia.
  cbn [download_loop app events sem_value].
  destruct keys as [|key keys]; [done |].
  unfold final_gather, gather.
  cbn [fmap list_fmap].
  change (list_fmap _ _ (process_postal_coro tr) keys)
    with (process_postal_coro tr <$> keys).
  destruct (run_tasks (process_postal_coro tr key
                         :: (process_postal_coro tr <$> keys)) w)
    as [[completed|e] w1]; cbn [fst snd record_event events];
    change (coro_arg <$> process_postal_coro tr key
                           :: (process_postal_coro tr <$> keys))
      with (coro_arg <$> (process_postal_coro tr <$> key :: keys));
    by rewrite coro_arg_process_postal.
Qed.

Lemma short_run_has_one_gather_witness :
  events (download_keys always_timeout ["118411"; "118412"] init_df
            {| sem_value := 20; events := [] |} fresh_world).1.2
  = [Acquire; Created "118411"; Release;
     Acquire; Created "118412"; Release;
     Gathered ["118411"; "118412"]].
Proof.
  apply (short_run_has_one_gather always_timeout ["118411"; "118412"] init_df
           20 fresh_world).
  simpl. lia.
Defined.

(** ** File names *)

Section NameFacts.

Lemma str_split_nonempty (sep : ascii) (s : string) : str_split sep s <> [].
Proof.
  destruct s as [|c s]; [done |]. cbn [str_split].
  destruct (bool_decide (c = sep)); [done |].
  by destruct (str_split sep s).
Qed.

Lemma str_split_no_sep (sep : ascii) (s : string) :
  occurs sep s = false -> str_split sep s = [s].
Proof.
  induction s as [|c s IH]; [done |]. cbn [occurs str_split].
  intros [Hc Hs]%orb_false_iff. by rewrite Hc, IH.
Qed.

(** Splitting around one separator. *)
Lemma str_split_app (sep : ascii) (p t : string) :
  str_split sep (p +:+ String sep t) = str_split sep p ++ str_split sep t.
Proof.
  induction p as [|c p IH].
  - change ("" +:+ String sep t) with (String sep t). cbn [str_split].
    by rewrite bool_decide_eq_true_2.
  - rewrite FmtFacts.app_cons. cbn [str_split]. rewrite IH.
    destruct (bool_decide (c = sep)); [done |].
    pose proof (str_split_nonempty sep p).
    by destruct (str_split sep p).
Qed.

Lemma occurs_app (c : ascii) (a b : string) :
  occurs c (a +:+ b) = occurs c a || occurs c b.
Proof.
  induction a as [|x a IH]; [done |].
  rewrite FmtFacts.app_cons. cbn [occurs]. by rewrite IH, orb_assoc.
Qed.

Lemma occurs_all_digits (c : ascii) (s : string) :
  Fmt.is_digit c = false -> Fmt.all_digits s = true -> occurs c s = false.
Proof.
  intros Hc. induction s as [|x s IH]; [done |]. cbn [Fmt.all_digits occurs].
  intros [Hx Hs]%andb_true_iff. rewrite IH by done.
  rewrite orb_false_r. apply bool_decide_eq_false. by intros ->; congruence.
Qed.

Lemma all_digits_str (i : Z) : 0 <= i -> Fmt.all_digits (Fmt.str i) = true.
Proof.
  intros Hi. destruct i as [|p|p]; [done | | lia].
  change (Fmt.str (Z.pos p)) with (pretty_N_go (N.pos p) "").
  apply FmtFacts.all_digits_pretty_N_go.
Qed.

(** A number within the width becomes that many digits that read back as
    the number. *)
Lemma format_0d_spec (width : nat) (i : Z) :
  (1 <= width)%nat -> 0 <= i < 10 ^ Z.of_nat width ->
  String.length (format_0d width i) = width
  /\ Fmt.all_digits (format_0d width i) = true
  /\ Fmt.int (format_0d width i) = i.
Proof.
  intros Hw Hi. unfold format_0d.
  assert ((i <? 0) = false) as -> by lia.
  replace (Z.abs i) with i by lia.
  destruct (FmtFacts.str_nonneg width i) as (Hlen & Hdig & Hint); [done | lia |].
  change (String.append "" ?s) with s. change (String.length "") with 0%nat.
  rewrite FmtFacts.length_app, FmtFacts.length_zeros, FmtFacts.all_digits_app,
    FmtFacts.all_digits_zeros, Hdig.
  unfold Fmt.int. rewrite FmtFacts.int_go_app, FmtFacts.int_go_zeros.
  fold (Fmt.int (Fmt.str i)). split; [lia | done].
Qed.

Lemma all_digits_strftime (day month year : Z) :
  0 <= day < 100 -> 0 <= month < 100 -> 0 <= year < 10000 ->
  Fmt.all_digits (strftime_dmY day month year) = true.
Proof.
  intros Hd Hm Hy. unfold strftime_dmY.
  destruct (format_0d_spec 2 day) as (_ & Hday & _); [lia | simpl; lia |].
  destruct (format_0d_spec 2 month) as (_ & Hmonth & _); [lia | simpl; lia |].
  destruct (format_0d_spec 4 year) as (_ & Hyear & _); [lia | simpl; lia |].
  by rewrite !FmtFacts.all_digits_app, Hday, Hmonth, Hyear.
Qed.

(** The date is read back from any name that ends in an underscore, digits
    and [.csv]. *)
Lemma date_of_filename_suffix (front date : string) :
  Fmt.all_digits date = true ->
  date_of_filename (front +:+ String "_" (date +:+ ".csv")) = date.
Proof.
  intros Hdate. unfold date_of_filename.
  assert (occurs "_" (date +:+ ".csv") = false) as Hunder
    by (rewrite occurs_app, occurs_all_digits by done; done).
  assert (occurs "." date = false) as Hdot by (by apply occurs_all_digits).
  rewrite str_split_app, (str_split_no_sep "_" (date +:+ ".csv")) by done.
  rewrite last_snoc. cbn [default from_option id].
  change (date +:+ ".csv") with (date +:+ String "." "csv").
  rewrite str_split_app, (str_split_no_sep "." date) by done.
  done.
Qed.

(** The default name of the downloader, whatever the directory. *)
Lemma downloader_output_file_default (output_dir : string)
    (day month year : Z) :
  exists front,
    downloader_output_file output_dir None day month year
    = front +:+ String "_" (strftime_dmY day month year +:+ ".csv").
Proof.
  unfold downloader_output_file, path_join.
  change (starts_with "/" ("onemap_" +:+ ?s)) with false. cbv iota.
  change ("onemap_" +:+ ?s) with ("onemap" +:+ String "_" s).
  destruct (bool_decide (output_dir = "") || ends_with "/" output_dir).
  - exists (output_dir +:+ "onemap"). by rewrite FmtFacts.app_assoc.
  - exists (output_dir +:+ "/" +:+ "onemap").
    by rewrite !FmtFacts.app_assoc.
Qed.

Lemma date_of_downloader_output_file (output_dir : string)
    (day month year : Z) :
  0 <= day < 100 -> 0 <= month < 100 -> 0 <= year < 10000 ->
  date_of_filename (downloader_output_file output_dir None day month year)
  = strftime_dmY day month year.
Proof.
  intros Hd Hm Hy.
  destruct (downloader_output_file_default output_dir day month year)
    as [front ->].
  apply date_of_filename_suffix. by apply all_digits_strftime.
Qed.

Lemma app_inj_length (a a' b b' : string) :
  String.length a = String.length a' ->
  a +:+ b = a' +:+ b' -> a = a' /\ b = b'.
Proof.
  revert a'. induction a as [|x a IH]; intros [|x' a']; try done.
  rewrite !FmtFacts.app_cons. intros [= Hlen] [= -> Hrest].
  destruct (IH a' Hlen Hrest) as [-> ->]. done.
Qed.

End NameFacts.

(** X15.  The comparator recovers the dates the downloader wrote: given two
    files under the downloader's default names, for any two output
    directories, its default output is
    [data/differences_onemap_<DDMMYYYY>-<DDMMYYYY>.csv] with the dates of
    the two downloads. *)
Theorem diff_output_carries_download_dates
    (dir1 dir2 : string) (d1 m1 y1 d2 m2 y2 : Z) :
  1 <= d1 <= 31 -> 1 <= m1 <= 12 -> 1000 <= y1 <= 9999 ->
  1 <= d2 <= 31 -> 1 <= m2 <= 12 -> 1000 <= y2 <= 9999 ->
  comparator_diff_output
    (downloader_output_file dir1 None d1 m1 y1)
    (downloader_output_file dir2 None d2 m2 y2) None
  = "data/differences_onemap_" +:+ strftime_dmY d1 m1 y1 +:+ "-"
      +:+ strftime_dmY d2 m2 y2 +:+ ".csv".
Proof.
  intros Hd1 Hm1 Hy1 Hd2 Hm2 Hy2. unfold comparator_diff_output.
  by rewrite !date_of_downloader_output_file by lia.
Qed.

Lemma diff_output_carries_download_dates_witness :
  comparator_diff_output
    (downloader_output_file "data" None 1 2 2025)
    (downloader_output_file "my_data.v2/" None 4 11 2026) None
  = "data/differences_onemap_01022025-04112026.csv".
Proof.
  apply (diff_output_carries_download_dates "data" "my_data.v2/"
           1 2 2025 4 11 2026); lia.
Defined.

(** X16.  Downloads made on different days into the same directory get
    different default file names: the name determines day, month and
    year. *)
Theorem default_name_determines_date
    (output_dir : string) (d m y d' m' y' : Z) :
  1 <= d <= 31 -> 1 <= m <= 12 -> 1000 <= y <= 9999 ->
  1 <= d' <= 31 -> 1 <= m' <= 12 -> 1000 <= y' <= 9999 ->
  downloader_output_file output_dir None d m y
  = downloader_output_file output_dir None d' m' y' ->
  d = d' /\ m = m' /\ y = y'.
Proof.
  intros Hd Hm Hy Hd' Hm' Hy' Hsame.
  apply (f_equal date_of_filename) in Hsame.
  rewrite !date_of_downloader_output_file in Hsame by lia.
  unfold strftime_dmY in Hsame.
  destruct (format_0d_spec 2 d) as (Ld & _ & Id); [lia | simpl; lia |].
  destruct (format_0d_spec 2 d') as (Ld' & _ & Id'); [lia | simpl; lia |].
  destruct (format_0d_spec 2 m) as (Lm & _ & Im); [lia | simpl; lia |].
  destruct (format_0d_spec 2 m') as (Lm' & _ & Im'); [lia | simpl; lia |].
  destruct (format_0d_spec 4 y) as (_ & _ & Iy); [lia | simpl; lia |].
  destruct (format_0d_spec 4 y') as (_ & _ & Iy'); [lia | simpl; lia |].
  apply app_inj_length in Hsame as [Hday Hrest]; [| congruence].
  apply app_inj_length in Hrest as [Hmonth Hyear]; [| congruence].
  split; [congruence |]. split; congruence.
Qed.

Lemma default_name_determines_date_witness :
  downloader_output_file "data" None 4 11 2026 = "data/onemap_04112026.csv"
  /\ (4 = 4 /\ 11 = 11 /\ 2026 = 2026).
Proof.
  split; [reflexivity |].
  apply (default_name_determines_date "data" 4 11 2026 4 11 2026);
    [lia | lia | lia | lia | lia | lia | reflexivity].
Defined.

(** * The table, the sink and the page loop, once more *)

(** ** Where the rows come from *)

Section ProvenanceFacts.

Variable tr : list string -> string -> outcome response.

(** A 200 page with a payload adds the mapped items of the payload, in
    order. *)
Lemma fetch_page_payload (key : string) (page : Z) (records : list row)
    (w : world) (resp : response) (data : SearchResponse) :
  tr (requests w) (page_url key page) = Ok resp ->
  status resp = 200 ->
  json resp = Ok data ->
  fetch_page tr key page records w
  = (Ok (records ++ (record_of_item <$> default [] (results data))),
     sent (page_url key page) w).
Proof.
  intros Hreply Hstatus Hjson.
  by rewrite fetch_page_reply, Hreply, Hstatus, Hjson.
Qed.

Lemma fetch_page_served (key : string) (page : Z)
    (records records' : list row) (w w' : world) :
  fetch_page tr key page records w = (Ok records', w') ->
  exists items,
    records' = records ++ (record_of_item <$> items)
    /\ Forall (served tr key) items.
Proof.
  rewrite fetch_page_reply. cbv zeta.
  destruct (tr (requests w) (page_url key page)) as [r | [|msg]] eqn:Hreply;
    [| | done].
  - destruct (status r =? 200) eqn:Hstatus.
    + destruct (json r) as [data | [|msg]] eqn:Hjson; [| | done].
      * intros [= <- _]. exists (default [] (results data)).
        split; [done |]. apply Forall_forall. intros item Hitem.
        exists page, (requests w), r, data.
        split; [done |]. split; [by apply Z.eqb_eq | done].
      * intros ->%log_then_ret. exists []. by rewrite app_nil_r.
    + intros [= <- _]. exists []. by rewrite app_nil_r.
  - intros ->%log_then_ret. exists []. by rewrite app_nil_r.
Qed.

Lemma page_loop_served (key : string) (pages : list Z) :
  forall (records records' : list row) (w w' : world),
    page_loop tr key pages records w = (Ok records', w') ->
    exists items,
      records' = records ++ (record_of_item <$> items)
      /\ Forall (served tr key) items.
Proof.
  induction pages as [|page rest IH]; intros records records' w w' Hrun.
  - injection Hrun as <- _. exists []. by rewrite app_nil_r.
  - cbn [page_loop] in Hrun. unfold mbind, M_bind in Hrun.
    destruct (fetch_page tr key page records w) as [[mid|e] w1] eqn:Hpage;
      [| done].
    apply fetch_page_served in Hpage as (items1 & -> & Hall1).
    apply IH in Hrun as (items2 & -> & Hall2).
    exists (items1 ++ items2).
    split; [by rewrite fmap_app, app_assoc | by apply Forall_app].
Qed.

Lemma process_postal_served (key : string) (records : list row)
    (w w' : world) :
  process_postal tr key w = (Ok records, w') ->
  exists items,
    records = record_of_item <$> items /\ Forall (served tr key) items.
Proof.
  unfold process_postal, mbind, M_bind.
  destruct (fetch_postal tr key 3 w) as [[[j|]|e] w1]; [| | done].
  - destruct (0 <? default 0 (found j)).
    + destruct (totalNumPages j) as [n|]; [| done].
      intros Hrun. apply page_loop_served in Hrun as (items & -> & Hall).
      by exists items.
    + intros [= <- _]. by exists [].
  - intros [= <- _]. by exists [].
Qed.

Lemma run_tasks_served (keys : list string) :
  forall (w w' : world) (results : list (list row)),
    run_tasks (process_postal_coro tr <$> keys) w = (Ok results, w') ->
    Forall (fun batch =>
              exists key items,
                key ∈ keys /\ batch = record_of_item <$> items
                /\ Forall (served tr key) items)
      results.
Proof.
  induction keys as [|key keys IH]; intros w w' results.
  - intros [= <- _]. constructor.
  - cbn [fmap list_fmap]. rewrite run_tasks_cons.
    cbn [process_postal_coro coro_body].
    destruct (process_postal tr key w) as [[batch|e] w1] eqn:Hkey; [| done].
    change (list_fmap _ _ (process_postal_coro tr) keys)
      with (process_postal_coro tr <$> keys).
    destruct (run_tasks (process_postal_coro tr <$> keys) w1)
      as [[rest|e] w2] eqn:Hrest; [| done].
    intros [= <- _]. constructor.
    + apply process_postal_served in Hkey as (items & -> & Hall).
      exists key, items. split; [by left | done].
    + eapply Forall_impl; [by eapply IH |].
      intros other (key' & items & Hin & -> & Hall).
      exists key', items. split; [by right | done].
Qed.

End ProvenanceFacts.

(** C6, as amended.  Every item of the payload of a page answered with 200
    becomes one row, field by field: BLK_NO to blk_no, ROAD_NAME to street,
    POSTAL to postal_code, BUILDING to name, LATITUDE to lat, LONGITUDE to
    lon, an absent raw field becoming the empty string, the rows in the order
    of the items.  The table of a completed run has exactly the labels
    [blk_no], [street], [postal_code], [name], [lat], [lon], in this order,
    and every one of its rows is such a mapping of an item that the transport
    served, in a 200 reply, for a page of a key of the run.
    [download_data] is the case of [postal_codes] and a fresh semaphore. *)
Theorem output_table_columns
    (tr : list string -> string -> outcome response) :
  (forall (key : string) (page : Z) (records : list row) (w : world)
          (resp : response) (data : SearchResponse),
     tr (requests w) (page_url key page) = Ok resp ->
     status resp = 200 ->
     json resp = Ok data ->
     fetch_page tr key page records w
     = (Ok (records
              ++ ((fun item : gmap string string =>
                     [ ("blk_no", default "" (item !! "BLK_NO"));
                       ("street", default "" (item !! "ROAD_NAME"));
                       ("postal_code", default "" (item !! "POSTAL"));
                       ("name", default "" (item !! "BUILDING"));
                       ("lat", default "" (item !! "LATITUDE"));
                       ("lon", default "" (item !! "LONGITUDE")) ])
                    <$> default [] (results data))),
        sent (page_url key page) w))
  /\ (forall (keys : list string) (s s' : sched) (w w' : world)
             (df : DataFrame),
        download_keys tr keys init_df s w = (Ok df, s', w') ->
        columns df = ["blk_no"; "street"; "postal_code"; "name"; "lat"; "lon"]
        /\ Forall
             (fun r : row =>
                exists (key : string) (page : Z) (h : list string)
                       (resp : response) (data : SearchResponse)
                       (item : gmap string string),
                  key ∈ keys
                  /\ tr h (page_url key page) = Ok resp
                  /\ status resp = 200
                  /\ json resp = Ok data
                  /\ item ∈ default [] (results data)
                  /\ r = [ ("blk_no", default "" (item !! "BLK_NO"));
                           ("street", default "" (item !! "ROAD_NAME"));
                           ("postal_code", default "" (item !! "POSTAL"));
                           ("name", default "" (item !! "BUILDING"));
                           ("lat", default "" (item !! "LATITUDE"));
                           ("lon", default "" (item !! "LONGITUDE")) ])
             (rows df)).
Proof.
  split.
  { intros key page records w resp data Hreply Hstatus Hjson.
    by apply (fetch_page_payload tr key page records w resp data). }
  intros keys s s' w w' df.
  destruct (download_keys_refines tr keys init_df s w) as [s1 ->].
  destruct (run_tasks (process_postal_coro tr <$> keys) w)
    as [[results|e] w0] eqn:Hrun; [| done].
  intros [= <- _ _]. split.
  - apply flush_columns; [done |].
    eapply Forall_impl; [by eapply run_tasks_served |].
    intros batch (key & items & _ & -> & _). by exists items.
  - apply run_tasks_served in Hrun.
    rewrite flush_rows. cbn [rows init_df app].
    apply Forall_forall. intros r Hr.
    apply list_elem_of_In, in_concat in Hr as (batch & Hbatch & Hr).
    apply list_elem_of_In in Hbatch, Hr.
    rewrite Forall_forall in Hrun.
    destruct (Hrun batch Hbatch) as (key & items & Hkey & -> & Hall).
    apply list_elem_of_fmap in Hr as (item & -> & Hitem).
    rewrite Forall_forall in Hall.
    destruct (Hall item Hitem) as (page & h & resp & data & H1 & H2 & H3 & H4).
    by exists key, page, h, resp, data, item.
Qed.

(** Key 118411 with two items on one page: two rows under the six labels,
    the two items field by field. *)
Lemma output_table_columns_witness :
  exists df s w,
    download_keys two_blocks ["118411"] init_df fresh_sched fresh_world
    = (Ok df, s, w)
    /\ columns df = ["blk_no"; "street"; "postal_code"; "name"; "lat"; "lon"]
    /\ rows df
       = [ [("blk_no", "1"); ("street", ""); ("postal_code", "118411");
            ("name", ""); ("lat", ""); ("lon", "")];
           [("blk_no", "2"); ("street", ""); ("postal_code", "118411");
            ("name", ""); ("lat", ""); ("lon", "")] ].
Proof.
  eassert (download_keys two_blocks ["118411"] init_df fresh_sched fresh_world
           = (Ok _, _, _)) as Hrun by (vm_compute; reflexivity).
  do 3 eexists. split; [exact Hrun |].
  split; [| reflexivity].
  exact (proj1 (proj2 (output_table_columns two_blocks) _ _ _ _ _ _ Hrun)).
Defined.

(** ** The requests of the page loop *)

(** X8.  The page loop sends one request per page, in the order of the
    pages, and nothing else.  When it returns, every page was requested
    once.  When it raises, the pages before the one that raised were fetched
    normally, that page raised the exception, and the world is the one that
    fetch left: the requests are exactly those of the pages up to and
    including it, and no later page is requested. *)
Theorem page_loop_requests
    (tr : list string -> string -> outcome response) (key : string)
    (pages : list Z) (records : list row) (w : world) :
  match page_loop tr key pages records w with
  | (Ok records', w') =>
      requests w' = requests w ++ (page_url key <$> pages)
  | (Raise e, w') =>
      exists (before : list Z) (page : Z) (after : list Z)
             (records_k : list row) (w_k : world),
        pages = before ++ page :: after
        /\ page_loop tr key before records w = (Ok records_k, w_k)
        /\ requests w_k = requests w ++ (page_url key <$> before)
        /\ fetch_page tr key page records_k w_k = (Raise e, w')
        /\ requests w' = requests w ++ (page_url key <$> before ++ [page])
  end.
Proof.
  revert records w. induction pages as [|page rest IH]; intros records w.
  - simpl. by rewrite app_nil_r.
  - cbn [page_loop]. unfold mbind, M_bind.
    destruct (fetch_page_shape tr key page records w)
      as (r1 & w1 & Hpage & Hreq1 & _).
    rewrite Hpage. destruct r1 as [records1 | e].
    + specialize (IH records1 w1).
      destruct (page_loop tr key rest records1 w1) as [[records'|e] w'].
      * rewrite IH, Hreq1. cbn [fmap list_fmap]. by rewrite <- app_assoc.
      * destruct IH as (before & page' & after & records_k & w_k
                        & -> & Hbefore & Hreqk & Hraise & Hreq).
        exists (page :: before), page', after, records_k, w_k.
        split; [done |]. split.
        { cbn [page_loop]. by rewrite (bind_ok _ _ _ _ _ Hpage). }
        split; [rewrite Hreqk, Hreq1; cbn [fmap list_fmap];
                by rewrite <- app_assoc |].
        split; [done |].
        rewrite Hreq, Hreq1. cbn [fmap list_fmap app].
        by rewrite <- app_assoc.
    + exists [], page, rest, records, w.
      split; [done |]. split; [done |].
      split; [simpl; by rewrite app_nil_r |]. split; [done |]. done.
Qed.

(** ** A sink that cannot be written *)

Section SinkFailure.

Variable tr : list string -> string -> outcome response.

(** A first reply that is a refusal ends the probe with one call of
    [log_error], whatever the state of the log. *)
Lemma fetch_postal_refused (key : string) (retries : Z) (w : world)
    (reason : string) :
  0 < retries ->
  classify (tr (requests w) (probe_url key)) = Failed reason ->
  fetch_postal tr key retries w
  = (log_error key reason;; mret None) (sent (probe_url key) w).
Proof.
  intros Hr Hfail.
  assert (classify (tr (requests w ++ replicate 0 (probe_url key))
                      (probe_url key)) = Failed reason) as Hzero
    by (simpl; by rewrite app_nil_r).
  destruct (fetch_postal_spec tr key retries w)
    as (n & r & w' & -> & Hn & Hearlier & Hend).
  assert (n = 1%nat) as ->.
  { destruct n as [|[|n]]; [| done |].
    - destruct Hend as [(? & _) | [(i & ? & ? & _)
        | [(i & ? & ? & _) | (i & ? & _)]]]; [lia | done | done | done].
    - rewrite (Hearlier 0%nat) in Hzero by lia. done. }
  destruct Hend as [(_ & ? & _) | [(i & j & [= <-] & Hj & _)
    | [(i & reason' & [= <-] & Hf & Hlog) | (i & [= <-] & _ & Ht & _)]]];
    [done | | |].
  - rewrite Hzero in Hj. done.
  - rewrite Hzero in Hf. injection Hf as <-. by rewrite Hlog.
  - rewrite Hzero in Ht. done.
Qed.

Lemma process_postal_refused (key : string) (w : world)
    (reason err : string) :
  write_error (error_log w) = Some err ->
  classify (tr (requests w) (probe_url key)) = Failed reason ->
  process_postal tr key w = (Raise (Error err), sent (probe_url key) w).
Proof.
  intros Hw Hfail. unfold process_postal.
  apply bind_raise. rewrite (fetch_postal_refused key 3 w reason) by (lia || done).
  apply bind_raise. by apply log_error_fails.
Qed.

(** A log that cannot be written is not changed by a task. *)
Lemma process_postal_keeps_write_error (key : string) (w w' : world)
    (r : outcome (list row)) (err : string) :
  write_error (error_log w) = Some err ->
  process_postal tr key w = (r, w') ->
  write_error (error_log w') = Some err.
Proof.
  intros Hw Hrun.
  destruct (process_postal_shape tr key w) as (r1 & w1 & Heq & _ & Happ).
  rewrite Hrun in Heq. injection Heq as <- <-.
  unfold appended_entries in Happ.
  destruct (error_log w) as [written | err' | written err'];
    [done | by rewrite Happ | by rewrite Happ].
Qed.

(** With such a log, a batch that holds a key whose probe is always refused
    does not complete. *)
Lemma run_tasks_refused (key err : string) (keys : list string) :
  (forall h, exists reason,
     classify (tr h (probe_url key)) = Failed reason) ->
  key ∈ keys ->
  forall w : world,
    write_error (error_log w) = Some err ->
    exists e w',
      run_tasks (process_postal_coro tr <$> keys) w = (Raise e, w').
Proof.
  intros Hrefused. induction keys as [|k keys IH]; intros Hin w Hw.
  - by apply elem_of_nil in Hin.
  - cbn [fmap list_fmap]. rewrite run_tasks_cons.
    cbn [process_postal_coro coro_body].
    change (list_fmap _ _ (process_postal_coro tr) keys)
      with (process_postal_coro tr <$> keys).
    destruct (process_postal tr k w) as [[batch|e] w1] eqn:Hk;
      [| by exists e, w1].
    apply elem_of_cons in Hin as [<- | Hin].
    + destruct (Hrefused (requests w)) as [reason Hreason].
      rewrite (process_postal_refused key w reason err) in Hk by done. done.
    + destruct (IH Hin w1) as (e & w' & ->);
        [by eapply process_postal_keeps_write_error |].
      by exists e, w'.
Qed.

End SinkFailure.

(** C3, as written, fails: with an error log that cannot be opened, three
    timeouts use up the budget, and the key does not fail with the reason
    "Timeout after retries": nothing is logged and the error of the log
    leaves [fetch_postal]. *)
Lemma fetch_postal_retry_budget_counterexample :
  fetch_postal always_timeout "118411" 3 full_disk
  = (Raise (Error "[Errno 28] No space left on device"),
     {| requests := replicate 3 (probe_url "118411");
        error_log := Unwritable "[Errno 28] No space left on device" |}).
Proof. reflexivity. Qed.

(** C5, as written, fails: with an error log that cannot be opened, page 1
    of 3 answers and page 2 times out; the handler's call of [log_error]
    raises, page 3 is never requested, and the record of page 1 is lost with
    the key. *)
Lemma page_timeout_is_logged_and_skipped_counterexample :
  process_postal (three_pages (Raise TimeoutError)) "118411" full_disk
  = (Raise (Error "[Errno 28] No space left on device"),
     {| requests := [probe_url "118411"; page_url "118411" 1;
                     page_url "118411" 2];
        error_log := Unwritable "[Errno 28] No space left on device" |}).
Proof. reflexivity. Qed.

(** C9, as written, fails: with the error log unopenable, or openable on a
    device that refuses the flush, [log_error] raises to its caller, and a
    run whose first key is answered with status 500 ends with that
    exception. *)
Lemma log_error_raises_counterexample :
  log_error "010000" "HTTP 500" full_disk
  = (Raise (Error "[Errno 28] No space left on device"), full_disk)
  /\ log_error "010000" "HTTP 500" full_device
     = (Raise (Error "[Errno 28] No space left on device"), full_device)
  /\ exists s w,
       download_data always_500 full_disk
       = (Raise (Error "[Errno 28] No space left on device"), s, w).
Proof.
  split; [reflexivity |]. split; [reflexivity |].
  assert (process_postal always_500 "010000" full_disk
          = (Raise (Error "[Errno 28] No space left on device"),
             sent (probe_url "010000") full_disk)) as Hfirst by reflexivity.
  unfold download_data. rewrite postal_codes_head.
  destruct (download_keys_first_raises always_500 "010000"
              (Fmt.format_06d <$> range 10001 830000) init_df
              {| sem_value := 20; events := [] |} _ _ _ Hfirst) as [s' Hrun].
  by eexists s', _.
Qed.

(** C9, as amended.  [log_error] returns normally, having appended the one
    line "Error with postal code <key>: <reason>" and touched nothing else,
    when the error log opens and the write reaches it; when [open] raises,
    or when the flush at the close of the file does, that error is raised to
    the caller and the world is as it was.  A run then cannot record a
    refusal: with such a log, a run over keys one of which has its probe
    refused (a status other than 200, or an exception other than a timeout)
    does not complete, it ends with an exception. *)
Theorem log_error_outcome :
  (forall (postal_code error : string) (w : world),
     match error_log w with
     | Writable written =>
         log_error postal_code error w
         = (Ok (),
            {| requests := requests w;
               error_log :=
                 Writable (written ++
                   ["Error with postal code " +:+ postal_code +:+ ": "
                      +:+ error +:+ newline]) |})
     | Unwritable err =>
         log_error postal_code error w = (Raise (Error err), w)
     | Unflushable written err =>
         log_error postal_code error w = (Raise (Error err), w)
     end)
  /\ (forall (tr : list string -> string -> outcome response)
             (keys : list string) (df : DataFrame) (s : sched) (w : world)
             (key err : string),
        write_error (error_log w) = Some err ->
        key ∈ keys ->
        (forall h, exists reason,
           classify (tr h (probe_url key)) = Failed reason) ->
        exists e, (download_keys tr keys df s w).1.1 = Raise e).
Proof.
  split.
  - intros postal_code error w.
    destruct (log_error_cases postal_code error w)
      as [(written & Hlog & ->) | (err & Hlog & ->)].
    + rewrite Hlog. unfold logged. by rewrite Hlog.
    + destruct (error_log w) as [written | err' | written err'];
        [done | by injection Hlog as -> | by injection Hlog as ->].
  - intros tr keys df s w key err Hw Hin Hrefused.
    destruct (download_keys_refines tr keys df s w) as [s' ->].
    destruct (run_tasks_refused tr key err keys Hrefused Hin w Hw)
      as (e & w' & ->).
    by exists e.
Qed.

(** Two keys answered with status 500, on a device that refuses the
    flush. *)
Lemma log_error_outcome_witness :
  exists e,
    (download_keys always_500 ["010000"; "010001"] init_df fresh_sched
       full_device).1.1 = Raise e.
Proof.
  apply (proj2 log_error_outcome always_500 ["010000"; "010001"] init_df
           fresh_sched full_device "010001"
           "[Errno 28] No space left on device").
  - reflexivity.
  - apply list_elem_of_further, list_elem_of_here.
  - intros h. exists "HTTP 500". reflexivity.
Defined.

(** The page loop of a key whose second page drops the connection: pages 1
    and 2 are requested, page 3 is not. *)
Example page_loop_stops_at_the_raise :
  page_loop page_disconnects "010000" [1; 2; 3] [] fresh_world
  = (Raise (Error "Server disconnected"),
     {| requests := [page_url "010000" 1; page_url "010000" 2];
        error_log := Writable [] |}).
Proof. reflexivity. Qed.
